(** * ProcessBuilder: drop transitions and undo/redo history

    A shallow embedding of [src/ProcessBuilder.tsx]: the row state, the
    drag payload, the drop handler, the snapshot history with its cursor
    and the persistence of the history in [localStorage]. *)

From Stdlib Require Import Ascii String.
Open Scope string_scope.
From stdpp Require Import gmap strings list fin_maps pretty.

(** ** JavaScript values held by the containers

    The TypeScript types say [string] and [string | null]; at run time a
    destructured payload field can also be [undefined], and [fn] is stored
    as it was parsed. *)

Inductive value : Type :=
  | undefined
  | null
  | str (s : string).

Global Instance value_eq_dec : EqDecision value.
Proof. solve_decision. Defined.

(** [if (v)]: of the values above only a non-empty string is truthy. *)
Definition truthy (v : value) : bool :=
  match v with
  | str s => negb (String.eqb s "")
  | _ => false
  end.

(** A property read [o[k]]: a missing key reads as [undefined]. *)
Definition read (o : option value) : value := default undefined o.

(** ** Row state *)

(** [interface SlotState { [slotId: string]: string | null }] *)
Abbreviation SlotState := (gmap string value).

Record RowState : Type := mkRow {
  rowId : string;
  palette : list value;
  slots : SlotState;
  trash : list value
}.

Abbreviation Snapshot := (list RowState).

Definition STORAGE_KEY : string := "processbuilderhistory".

Definition ALL_FUNCTIONS : list value :=
  [str "map"; str "filter"; str "reduce"; str "compress"].

Definition initialRows : Snapshot :=
  [ mkRow "row-1" ALL_FUNCTIONS
      (<["slot-1-1" := null]> (<["slot-1-2" := null]> (<["slot-1-3" := null]> ∅)))
      [] ].

(** ** Strings *)

(** [s.startsWith(p)] *)
Definition startsWith (p s : string) : bool := String.prefix p s.

Definition is_colon (c : Ascii.ascii) : bool := Ascii.eqb c ":"%char.

(** [s.split(':')]: the pieces between the colons; never empty. *)
Fixpoint split_colon (s : string) : list string :=
  match s with
  | EmptyString => [""]
  | String c rest =>
      if is_colon c then "" :: split_colon rest
      else match split_colon rest with
           | piece :: pieces => String c piece :: pieces
           | [] => [String c ""]
           end
  end.

(** [`${rowId}:${container}::${fn}`], the payload written by [handleDragStart]. *)
Definition handleDragStart (row container fn : string) : string :=
  row +:+ ":" +:+ container +:+ "::" +:+ fn.

(** An array element that may be missing, as a JavaScript value. *)
Definition field (parts : list string) (i : nat) : value :=
  match parts !! i with
  | Some s => str s
  | None => undefined
  end.

(** ** The drop transition *)

(** The three ways [handleDrop] can end: it returns before [apply], it calls
    [apply newRows], or a [TypeError] escapes from it. *)
Inductive drop_result : Type :=
  | Ignored
  | Applied (newRows : Snapshot)
  | TypeError.

Definition set_palette (r : RowState) (p : list value) : RowState :=
  mkRow (rowId r) p (slots r) (trash r).
Definition set_slots (r : RowState) (s : SlotState) : RowState :=
  mkRow (rowId r) (palette r) s (trash r).
Definition set_trash (r : RowState) (t : list value) : RowState :=
  mkRow (rowId r) (palette r) (slots r) t.

(** [list.filter(item => item !== fn)] *)
Definition without (fn : value) (l : list value) : list value :=
  filter (λ item, item ≠ fn) l.

(** "Remove the function from its source" *)
Definition removeFromSource (srcContainer : string) (fn : value) (updated : RowState) : RowState :=
  if String.eqb srcContainer "palette" then
    set_palette updated (without fn (palette updated))
  else if startsWith "slot-" srcContainer then
    set_slots updated (<[srcContainer := null]> (slots updated))
  else
    set_trash updated (without fn (trash updated)).

(** "Add or swap into destination" *)
Definition placeIntoDest (srcContainer : string) (fn : value) (dest : string)
    (updated : RowState) : RowState :=
  if startsWith "slot-" dest then
    let existing := read (slots updated !! dest) in
    if truthy existing then
      let updated := set_slots updated (<[dest := fn]> (slots updated)) in
      if startsWith "slot-" srcContainer then
        set_slots updated (<[srcContainer := existing]> (slots updated))
      else if String.eqb srcContainer "palette" then
        set_palette updated (palette updated ++ [existing])
      else
        set_trash updated (trash updated ++ [existing])
    else
      set_slots updated (<[dest := fn]> (slots updated))
  else if String.eqb dest "palette" then
    set_palette updated (palette updated ++ [fn])
  else
    set_trash updated (trash updated ++ [fn]).

(** The body of the [rows.map] callback for the row at [rowIdx]. *)
Definition updateRow (srcContainer : string) (fn : value) (dest : string)
    (r : RowState) : RowState :=
  placeIntoDest srcContainer fn dest (removeFromSource srcContainer fn r).

(** [rows.map((r, idx) => idx !== rowIdx ? r : updated)] *)
Definition mapRow (rowIdx : nat) (f : RowState → RowState) (rows : Snapshot) : Snapshot :=
  imap (λ idx r, if Nat.eqb idx rowIdx then f r else r) rows.

(** [handleDrop(e, rowIdx, dest)] where [raw] is the event's text payload and
    [rows] the snapshot on display. *)
Definition handleDrop (rows : Snapshot) (rowIdx : nat) (dest : string) (raw : string)
    : drop_result :=
  if String.eqb raw "" then Ignored
  else
    let parts := split_colon raw in
    let srcRow := field parts 0 in
    let srcContainer := field parts 1 in
    let fn := field parts 3 in
    match rows !! rowIdx with
    | None => TypeError
    | Some target =>
        if bool_decide (str (rowId target) ≠ srcRow)
           || bool_decide (srcContainer = str dest)
        then Ignored
        else match srcContainer with
             | str container => Applied (mapRow rowIdx (updateRow container fn dest) rows)
             | _ => TypeError
             end
    end.

(** ** History: the component's state and its handlers *)

(** Code that may throw: it returns a value or an exception escapes. *)
Inductive outcome (A : Type) : Type :=
  | Returned (a : A)
  | Threw.
Arguments Returned {A} a.
Arguments Threw {A}.

Global Instance outcome_ret : MRet outcome := λ A a, Returned a.
Global Instance outcome_bind : MBind outcome := λ A B f m,
  match m with
  | Returned a => f a
  | Threw => Threw
  end.

(** [try { body } catch { handler }] *)
Definition try_catch {A : Type} (body handler : outcome A) : outcome A :=
  match body with
  | Returned a => Returned a
  | Threw => handler
  end.

(** The two [useState] cells of the component. *)
Record State : Type := mkState {
  history : list Snapshot;
  index : nat
}.

(** [const rows = history[index]], [undefined] outside the array. *)
Definition rows (st : State) : option Snapshot := history st !! index st.

(** [apply(newRows)]: [prev.slice(0, index + 1)] followed by [newRows], and
    [setIndex(i => i + 1)]. *)
Definition apply (st : State) (newRows : Snapshot) : State :=
  let truncated := take (index st + 1) (history st) in
  mkState (truncated ++ [newRows]) (index st + 1).

Definition undo (st : State) : State :=
  if 0 <? index st then mkState (history st) (index st - 1) else st.

Definition redo (st : State) : State :=
  if index st <? length (history st) - 1 then mkState (history st) (index st + 1) else st.

(** The row [addRow] appends: [row-n] with a full palette and three empty slots. *)
Definition newRow (newRowIndex : nat) : RowState :=
  let n := pretty newRowIndex in
  mkRow ("row-" +:+ n) ALL_FUNCTIONS
    (<["slot-" +:+ n +:+ "-3" := null]>
       (<["slot-" +:+ n +:+ "-2" := null]>
          (<["slot-" +:+ n +:+ "-1" := null]> ∅)))
    [].

Definition addRow (st : State) : outcome State :=
  match rows st with
  | None => Threw
  | Some rows => Returned (apply st (rows ++ [newRow (length rows + 1)]))
  end.

(** The drop handler on the component's state: [handleDrop] ends in
    [apply(newRows)] unless it returned early or threw. *)
Definition drop (st : State) (rowIdx : nat) (dest raw : string) : outcome State :=
  match rows st with
  | None => if String.eqb raw "" then Returned st else Threw
  | Some rows =>
      match handleDrop rows rowIdx dest raw with
      | Ignored => Returned st
      | Applied newRows => Returned (apply st newRows)
      | TypeError => Threw
      end
  end.

(** ** Persistence *)

(** [localStorage]: string keys to string values. *)
Abbreviation Storage := (gmap string string).

Definition getItem (key : string) (ls : Storage) : option string := ls !! key.
Definition setItem (key item : string) (ls : Storage) : Storage := <[key := item]> ls.
Definition removeItem (key : string) (ls : Storage) : Storage := delete key ls.

(** [clearAll]: [setHistory([initialRows])], [setIndex(0)] and
    [localStorage.removeItem(STORAGE_KEY)]. *)
Definition clearAll (ls : Storage) : State * Storage :=
  (mkState [initialRows] 0, removeItem STORAGE_KEY ls).

(** What [JSON.parse] hands to the cast [as RowState[][]]: a list of
    snapshots, or the JSON value [null], on which [.length] throws. *)
Inductive parsed : Type :=
  | json_null
  | json_history (h : list Snapshot).

Section Persistence.
(** [JSON.stringify] and [JSON.parse] are the platform's; the handlers
    below are verified for every behaviour they may have. *)
Variable JSON_stringify : list Snapshot → string.
Variable JSON_parse : string → outcome parsed.

(** [loadHistory]: the whole body sits in [try], the handler returns []. *)
Definition loadHistory (ls : Storage) : outcome parsed :=
  try_catch
    (match getItem STORAGE_KEY ls with
     | None => Returned (json_history [])
     | Some stored =>
         if String.eqb stored "" then Returned (json_history [])
         else JSON_parse stored
     end)
    (Returned (json_history [])).

Definition saveHistory (h : list Snapshot) (ls : Storage) : Storage :=
  setItem STORAGE_KEY (JSON_stringify h) ls.

(** The initializer of the [history] cell:
    [loaded.length ? loaded : [initialRows]]. *)
Definition initialHistory (ls : Storage) : outcome (list Snapshot) :=
  loaded ← loadHistory ls;
  match loaded with
  | json_null => Threw
  | json_history h => Returned (if length h is 0 then [initialRows] else h)
  end.

(** The effect [useEffect(() => saveHistory(history), [history])], which
    runs after the first render and after every render that follows a
    [setHistory] with a new array. *)
Definition persistEffect (st : State) (ls : Storage) : State * Storage :=
  (st, saveHistory (history st) ls).

(** Mounting the component: both cells are initialized, then the effect runs. *)
Definition mount (ls : Storage) : outcome (State * Storage) :=
  h ← initialHistory ls;
  mret (persistEffect (mkState h (length h - 1)) ls).

(** A click on "Clear All": the handler, then the effect of the render
    that [setHistory([initialRows])] causes. *)
Definition clickClearAll (ls : Storage) : State * Storage :=
  let '(st, ls') := clearAll ls in persistEffect st ls'.

(** The persisted content is missing, or [JSON.parse] throws on it. *)
Definition absent_or_corrupt (ls : Storage) : Prop :=
  match getItem STORAGE_KEY ls with
  | None => True
  | Some stored => JSON_parse stored = Threw
  end.
End Persistence.

(** ** Events and reachable states *)

Inductive event : Type :=
  | Drop (rowIdx : nat) (dest raw : string)
  | AddRow
  | Undo
  | Redo
  | ClearAll.

Definition step (st : State) (e : event) : outcome State :=
  match e with
  | Drop rowIdx dest raw => drop st rowIdx dest raw
  | AddRow => addRow st
  | Undo => Returned (undo st)
  | Redo => Returned (redo st)
  | ClearAll => Returned (clearAll ∅).1  (* the two cells; the storage is apart *)
  end.

(** ** Token conservation *)

Definition slotValues (s : SlotState) : list value := (map_to_list s).*2.

(** The tokens in the occupied slots: the values the renderer shows. *)
Definition occupied (s : SlotState) : list value :=
  filter (λ v, truthy v) (slotValues s).

Definition tokens (r : RowState) : list value :=
  palette r ++ occupied (slots r) ++ trash r.

Definition conserved (r : RowState) : Prop := tokens r ≡ₚ ALL_FUNCTIONS.

(** The token [fn] is in the container of [r] that [handleDrop] removes it
    from under the name [container]: the palette, an occupied slot, or the
    trash for every other name. *)
Definition held (r : RowState) (container : string) (fn : value) : bool :=
  if String.eqb container "palette" then bool_decide (fn ∈ palette r)
  else if startsWith "slot-" container then
    bool_decide (slots r !! container = Some fn) && truthy fn
  else bool_decide (fn ∈ trash r).

(** A payload is honest for the row it is dropped on when, if it names that
    row, its token is held by the container it names; the payload written by
    [handleDragStart] for a token on display is. *)
Definition honest (rs : Snapshot) (rowIdx : nat) (raw : string) : bool :=
  let parts := split_colon raw in
  match rs !! rowIdx, field parts 1 with
  | Some target, str container =>
      bool_decide (str (rowId target) ≠ field parts 0)
      || held target container (field parts 3)
  | _, _ => true
  end.

Definition fair (st : State) (e : event) : bool :=
  match e, rows st with
  | Drop rowIdx _ raw, Some rs => honest rs rowIdx raw
  | _, _ => true
  end.

(** States reached from the first render on an empty storage by events
    whose drops carry honest payloads. *)
Inductive reachable : State → Prop :=
  | reachable_initial : reachable (mkState [initialRows] 0)
  | reachable_step st e st' :
      reachable st → fair st e = true → step st e = Returned st' → reachable st'.

(** Number of occurrences of [fn] in a list and in a row. *)
Definition count (fn : value) (l : list value) : nat :=
  length (filter (λ item, item = fn) l).

Definition count_token (fn : value) (r : RowState) : nat :=
  count fn (palette r) + count fn (slotValues (slots r)) + count fn (trash r).

(** The source container of a drag from the palette or the trash. *)
Definition source (container : string) (r : RowState) : list value :=
  if String.eqb container "palette" then palette r else trash r.

(** Following the spec's words (section 6): a payload has the form
    [<rowId>:<container>::<token>], so splitting it at the colons gives a
    row id, a container, an empty piece and a token. *)
Definition spec_well_formed (raw : string) : bool :=
  match split_colon raw with
  | [_; _; ""; _] => true
  | _ => false
  end.

(** No colon occurs in [s]: [split(':')] leaves such a piece whole. *)
Fixpoint colon_free (s : string) : bool :=
  match s with
  | EmptyString => true
  | String c rest => negb (is_colon c) && colon_free rest
  end.

(** The invariant of the reachable states: the cursor is inside the log and
    every row of every snapshot holds each token once. *)
Definition well_formed (st : State) : Prop :=
  index st < length (history st) ∧ Forall (Forall conserved) (history st).

(** The rows of a snapshot are numbered: the row at index [k] is [row-(k+1)]. *)
Definition numbered (rs : Snapshot) : Prop :=
  ∀ k r, rs !! k = Some r → rowId r = "row-" +:+ pretty (k + 1).

(** The drag sources the renderer creates: each element of a palette and of
    a trash, with the id of its row, the container's name and its own name. *)
Definition draggable (r : RowState) (container fn : string) : Prop :=
  (container = "palette" ∧ str fn ∈ palette r)
  ∨ (container = "trash" ∧ str fn ∈ trash r).

(** A run of events; it stops at the first exception. *)
Fixpoint run (es : list event) (st : State) : outcome State :=
  match es with
  | [] => Returned st
  | e :: es => st' ← step st e; run es st'
  end.

Definition navigation (e : event) : Prop := e = Undo ∨ e = Redo.

(** [commits st e st']: the event [e] is a mutation (a drop or an added row)
    whose handler reached [apply], and [st'] is the state after it. *)
Inductive commits : State → event → State → Prop :=
  | commits_drop st rs rowIdx dest raw newRows :
      rows st = Some rs →
      handleDrop rs rowIdx dest raw = Applied newRows →
      commits st (Drop rowIdx dest raw) (apply st newRows)
  | commits_addRow st rs :
      rows st = Some rs →
      commits st AddRow (apply st (rs ++ [newRow (length rs + 1)])).

(** ** The toolbar *)

(** [disabled={index === 0}] on the Undo button. *)
Definition undoDisabled (st : State) : bool := index st =? 0.

(** [disabled={index >= history.length - 1}] on the Redo button. *)
Definition redoDisabled (st : State) : bool := length (history st) - 1 <=? index st.

(** ** The component with its storage *)

Section Application.
Variable JSON_stringify : list Snapshot → string.

(** An event on the mounted component: the handler runs, and when it has
    called [setHistory] the effect of the next render saves the new log. *)
Definition dispatch (e : event) (app : State * Storage) : outcome (State * Storage) :=
  let '(st, ls) := app in
  match e with
  | Drop rowIdx dest raw =>
      match rows st with
      | None => if String.eqb raw "" then Returned app else Threw
      | Some rs =>
          match handleDrop rs rowIdx dest raw with
          | Ignored => Returned app
          | Applied newRows => Returned (persistEffect JSON_stringify (apply st newRows) ls)
          | TypeError => Threw
          end
      end
  | AddRow => st' ← addRow st; mret (persistEffect JSON_stringify st' ls)
  | Undo => Returned (undo st, ls)
  | Redo => Returned (redo st, ls)
  | ClearAll => Returned (clickClearAll JSON_stringify ls)
  end.

(** The storage holds the log of the state, serialized. *)
Definition in_sync (app : State * Storage) : Prop :=
  getItem STORAGE_KEY app.2 = Some (JSON_stringify (history app.1)).
End Application.

(** ** A storage that can refuse a write *)

Section Quota.
Variable JSON_stringify : list Snapshot → string.
Variable JSON_parse : string → outcome parsed.
(** [quota_exceeded key item ls]: [localStorage.setItem(key, item)] throws
    on the storage [ls] and writes nothing. *)
Variable quota_exceeded : string → string → Storage → bool.

Definition setItem_or_throw (key item : string) (ls : Storage) : outcome Storage :=
  if quota_exceeded key item ls then Threw else Returned (setItem key item ls).

(** [saveHistory] has no [try]: what [setItem] throws escapes from it. *)
Definition saveHistory_or_throw (h : list Snapshot) (ls : Storage) : outcome Storage :=
  setItem_or_throw STORAGE_KEY (JSON_stringify h) ls.

(** The effect after a render with a new [history]; an exception in it
    ends the event without a state to show. *)
Definition effect_or_throw (st : State) (ls : Storage) : outcome (State * Storage) :=
  ls' ← saveHistory_or_throw (history st) ls; mret (st, ls').

Definition mount_or_throw (ls : Storage) : outcome (State * Storage) :=
  h ← initialHistory JSON_parse ls;
  effect_or_throw (mkState h (length h - 1)) ls.

Definition dispatch_or_throw (e : event) (app : State * Storage)
    : outcome (State * Storage) :=
  let '(st, ls) := app in
  match e with
  | Drop rowIdx dest raw =>
      match rows st with
      | None => if String.eqb raw "" then Returned app else Threw
      | Some rs =>
          match handleDrop rs rowIdx dest raw with
          | Ignored => Returned app
          | Applied newRows => effect_or_throw (apply st newRows) ls
          | TypeError => Threw
          end
      end
  | AddRow => st' ← addRow st; effect_or_throw st' ls
  | Undo => Returned (undo st, ls)
  | Redo => Returned (redo st, ls)
  | ClearAll => let '(st', ls') := clearAll ls in effect_or_throw st' ls'
  end.
End Quota.

(** * Properties *)

Example drop_map_on_slot :
  handleDrop initialRows 0 "slot-1-1" "row-1:palette::map"
  = Applied [ mkRow "row-1" [str "filter"; str "reduce"; str "compress"]
                (<["slot-1-1" := str "map"]> (<["slot-1-2" := null]> (<["slot-1-3" := null]> ∅)))
                [] ].
Proof. vm_compute. reflexivity. Qed.

Example split_colon_payload :
  split_colon "row-1:palette::map" = ["row-1"; "palette"; ""; "map"]
  ∧ split_colon "row-1" = ["row-1"]
  ∧ split_colon "a:" = ["a"; ""]
  ∧ split_colon "" = [""].
Proof. done. Qed.

Example drop_without_container_throws :
  handleDrop initialRows 0 "slot-1-1" "row-1" = TypeError.
Proof. vm_compute. reflexivity. Qed.

Example newRow_2 : rowId (newRow 2) = "row-2" ∧ slots (newRow 2) !! "slot-2-3" = Some null.
Proof. vm_compute. done. Qed.

(** ** The shape of an accepted drop *)

Ltac case_eqb :=
  match goal with
  | |- context [String.eqb ?a ?b] => destruct (String.eqb_spec a b)
  | H : context [String.eqb ?a ?b] |- _ => destruct (String.eqb_spec a b)
  end.

Lemma mapRow_length i f rs : length (mapRow i f rs) = length rs.
Proof. apply length_imap. Qed.

Lemma mapRow_lookup i f rs : mapRow i f rs !! i = f <$> rs !! i.
Proof.
  unfold mapRow. rewrite list_lookup_imap.
  destruct (rs !! i); simpl; [|done]. by rewrite Nat.eqb_refl.
Qed.

Lemma mapRow_lookup_ne i j f rs : j ≠ i → mapRow i f rs !! j = rs !! j.
Proof.
  intros Hne. unfold mapRow. rewrite list_lookup_imap.
  destruct (rs !! j); simpl; [|done].
  by destruct (Nat.eqb_spec j i).
Qed.

Lemma mapRow_Forall (P : RowState → Prop) i f rs :
  Forall P rs → (∀ r, rs !! i = Some r → P r → P (f r)) → Forall P (mapRow i f rs).
Proof.
  intros Hall Hf. apply Forall_lookup. intros j r' Hj.
  destruct (decide (j = i)) as [->|Hne].
  - rewrite mapRow_lookup in Hj. destruct (rs !! i) as [r|] eqn:Hr; simplify_eq/=.
    apply Hf; [done|]. by eapply Forall_lookup_1.
  - rewrite mapRow_lookup_ne in Hj by done. by eapply Forall_lookup_1.
Qed.

(** What the guards of [handleDrop] have established once it reaches [apply]. *)
Lemma handleDrop_Applied rs i dest raw rs' :
  handleDrop rs i dest raw = Applied rs' →
  ∃ target container,
    raw ≠ "" ∧ rs !! i = Some target ∧
    field (split_colon raw) 0 = str (rowId target) ∧
    field (split_colon raw) 1 = str container ∧
    container ≠ dest ∧
    rs' = mapRow i (updateRow container (field (split_colon raw) 3) dest) rs.
Proof.
  unfold handleDrop. case_eqb; [done|].
  destruct (rs !! i) as [target|]; [|done].
  destruct (bool_decide _) eqn:Hrow; [done|].
  destruct (bool_decide (_ = str dest)) eqn:Hc; [done|]. simpl.
  apply bool_decide_eq_false in Hrow, Hc.
  destruct (field (split_colon raw) 1) as [| |container] eqn:Hcont; try done.
  intros [= <-]. exists target, container. repeat split; try done.
  - symmetry. by apply dec_stable.
  - congruence.
Qed.

Lemma handleDrop_Ignored rs i target dest raw :
  rs !! i = Some target →
  handleDrop rs i dest raw = Ignored ↔
    raw = "" ∨ field (split_colon raw) 0 ≠ str (rowId target)
    ∨ field (split_colon raw) 1 = str dest.
Proof.
  intros Hi. unfold handleDrop. rewrite Hi. case_eqb; [naive_solver|].
  destruct (decide (str (rowId target) = field (split_colon raw) 0)) as [Heq|Hne].
  - rewrite (bool_decide_eq_false_2 (_ ≠ _)) by naive_solver. simpl.
    destruct (decide (field (split_colon raw) 1 = str dest)) as [Hd|Hd].
    + rewrite bool_decide_eq_true_2 by done. naive_solver.
    + rewrite bool_decide_eq_false_2 by done.
      split; [by destruct (field (split_colon raw) 1)|].
      intros [?|[?|?]]; congruence.
  - rewrite (bool_decide_eq_true_2 (_ ≠ _)) by done. simpl. naive_solver.
Qed.

Lemma handleDrop_row rs rowIdx dest raw rs' r r' :
  handleDrop rs rowIdx dest raw = Applied rs' →
  rs !! rowIdx = Some r → rs' !! rowIdx = Some r' →
  ∃ container,
    field (split_colon raw) 1 = str container ∧ container ≠ dest
    ∧ r' = updateRow container (field (split_colon raw) 3) dest r.
Proof.
  intros (target & c & _ & Hi & _ & Hc & Hne & ->)%handleDrop_Applied Hr Hr'.
  rewrite mapRow_lookup, Hr in Hr'. simplify_eq/=. eauto.
Qed.

Lemma updateRow_rowId c fn dest r : rowId (updateRow c fn dest r) = rowId r.
Proof.
  unfold updateRow, placeIntoDest, removeFromSource.
  repeat (case_match; simpl); done.
Qed.

(** ** Rejected drops *)

Lemma apply_changes_state st newRows : apply st newRows ≠ st.
Proof. destruct st as [h c]. unfold apply. simpl. intros [= _ Hc]. lia. Qed.

(** C2 (amended): a drop is silently ignored, that is the handler returns
    without committing a snapshot and the state is as it was, exactly when
    the payload is empty, or its first field is not the id of the row
    dropped on, or its second field is the destination. No other check is
    made on the payload: every other payload that has a second field, the
    container, is accepted and commits a snapshot. *)
Theorem drop_rejected_iff st rs rowIdx target dest raw :
  rows st = Some rs → rs !! rowIdx = Some target →
  let parts := split_colon raw in
  let rejected :=
    raw = "" ∨ field parts 0 ≠ str (rowId target) ∨ field parts 1 = str dest in
  (handleDrop rs rowIdx dest raw = Ignored ↔ rejected)
  ∧ (step st (Drop rowIdx dest raw) = Returned st ↔ rejected)
  ∧ (¬ rejected → ∀ container, field parts 1 = str container →
       ∃ newRows, handleDrop rs rowIdx dest raw = Applied newRows
                  ∧ step st (Drop rowIdx dest raw) = Returned (apply st newRows)).
Proof.
  intros Hrs Hi parts rejected.
  pose proof (handleDrop_Ignored rs rowIdx target dest raw Hi) as Hiff.
  split; [done|]. subst rejected parts. rewrite <-Hiff. split.
  - simpl. unfold drop. rewrite Hrs.
    destruct (handleDrop rs rowIdx dest raw) as [|newRows|]; split; try done.
    intros [= Heq]. by apply apply_changes_state in Heq.
  - intros Hnot container Hc. simpl. unfold drop. rewrite Hrs.
    destruct (handleDrop rs rowIdx dest raw) as [|newRows|] eqn:Hdrop.
    + done.
    + by exists newRows.
    + exfalso. revert Hdrop. unfold handleDrop. rewrite Hi, Hc.
      case_eqb; [done|]. by destruct (_ || _).
Qed.

Lemma drop_rejected_iff_witness :
  step (mkState [initialRows] 0) (Drop 0 "palette" "row-1:palette::map")
  = Returned (mkState [initialRows] 0)
  ∧ ∃ newRows, handleDrop initialRows 0 "trash" "row-1:palette::map" = Applied newRows.
Proof.
  split.
  - destruct (drop_rejected_iff (mkState [initialRows] 0) initialRows 0
                (mkRow "row-1" ALL_FUNCTIONS (slots (newRow 1)) [])
                "palette" "row-1:palette::map") as (_ & Hret & _).
    + reflexivity.
    + vm_compute. reflexivity.
    + apply Hret. right. right. vm_compute. reflexivity.
  - destruct (drop_rejected_iff (mkState [initialRows] 0) initialRows 0
                (mkRow "row-1" ALL_FUNCTIONS (slots (newRow 1)) [])
                "trash" "row-1:palette::map") as (_ & _ & Hacc).
    + reflexivity.
    + vm_compute. reflexivity.
    + destruct (Hacc ltac:(vm_compute; intros [?|[?|?]]; congruence) "palette" eq_refl)
        as (newRows & Hdrop & _).
      exists newRows. exact Hdrop.
Defined.

(** C2, as stated, fails: the payload [row-1:palette] has no token field,
    yet the drop is accepted and a second snapshot is committed; the payload
    [row-1] has no container field either, and the handler throws. *)
Lemma malformed_payload_not_rejected :
  spec_well_formed "row-1:palette" = false
  ∧ (∃ st', step (mkState [initialRows] 0) (Drop 0 "slot-1-1" "row-1:palette")
            = Returned st'
            ∧ length (history st') = 2 ∧ index st' = 1)
  ∧ spec_well_formed "row-1" = false
  ∧ step (mkState [initialRows] 0) (Drop 0 "slot-1-1" "row-1") = Threw.
Proof.
  split_and!.
  - reflexivity.
  - eexists. split_and!; [vm_compute; reflexivity | reflexivity | reflexivity].
  - reflexivity.
  - vm_compute. reflexivity.
Qed.

(** ** The frame of a drop *)

(** C7: an accepted drop changes the row at the index it was dropped on,
    the row whose id the payload names, and no other: the snapshot keeps its
    length and every other row is equal to what it was. *)
Theorem drop_touches_one_row rs rowIdx dest raw rs' :
  handleDrop rs rowIdx dest raw = Applied rs' →
  length rs' = length rs
  ∧ (∀ j, j ≠ rowIdx → rs' !! j = rs !! j)
  ∧ (∃ r r', rs !! rowIdx = Some r ∧ rs' !! rowIdx = Some r'
             ∧ field (split_colon raw) 0 = str (rowId r) ∧ rowId r' = rowId r).
Proof.
  intros (target & c & _ & Hi & Hrow & _ & _ & ->)%handleDrop_Applied.
  split_and!.
  - apply mapRow_length.
  - intros j Hj. by apply mapRow_lookup_ne.
  - eexists target, _. rewrite mapRow_lookup, Hi. simpl.
    split_and!; try done. apply updateRow_rowId.
Qed.

Lemma drop_touches_one_row_witness :
  handleDrop [newRow 1; newRow 2] 1 "trash" "row-2:palette::map"
  = Applied [ newRow 1;
              mkRow "row-2" [str "filter"; str "reduce"; str "compress"]
                (slots (newRow 2)) [str "map"] ]
  ∧ [ newRow 1;
      mkRow "row-2" [str "filter"; str "reduce"; str "compress"]
        (slots (newRow 2)) [str "map"] ] !! 0
    = [newRow 1; newRow 2] !! 0.
Proof.
  assert (handleDrop [newRow 1; newRow 2] 1 "trash" "row-2:palette::map"
          = Applied [ newRow 1;
                      mkRow "row-2" [str "filter"; str "reduce"; str "compress"]
                        (slots (newRow 2)) [str "map"] ]) as Hdrop
    by (vm_compute; reflexivity).
  split; [exact Hdrop|].
  apply (proj1 (proj2 (drop_touches_one_row _ _ _ _ _ Hdrop))). lia.
Defined.

(** ** Drops on a slot *)

(** C6: on an accepted drop on a slot the dragged token is in that slot
    afterwards. If the slot held a token [t], then [t] is in the source
    slot when the source is a slot, at the end of the palette when the
    source is the palette and at the end of the trash otherwise; if the
    slot was empty, the row is the one left by the removal with the token
    put in the slot. The other slots are as they were. *)
Theorem drop_on_slot_swaps rs rowIdx dest raw rs' r r' :
  handleDrop rs rowIdx dest raw = Applied rs' →
  rs !! rowIdx = Some r → rs' !! rowIdx = Some r' →
  startsWith "slot-" dest = true →
  let fn := field (split_colon raw) 3 in
  let t := read (slots r !! dest) in
  ∃ container,
    field (split_colon raw) 1 = str container
    ∧ slots r' !! dest = Some fn
    ∧ (∀ k, k ≠ dest → k ≠ container → slots r' !! k = slots r !! k)
    ∧ (truthy t = true →
         (startsWith "slot-" container = true →
            slots r' !! container = Some t
            ∧ palette r' = palette r ∧ trash r' = trash r)
         ∧ (container = "palette" →
            palette r' = without fn (palette r) ++ [t]
            ∧ slots r' = <[dest := fn]> (slots r) ∧ trash r' = trash r)
         ∧ (container ≠ "palette" → startsWith "slot-" container = false →
            trash r' = without fn (trash r) ++ [t]
            ∧ slots r' = <[dest := fn]> (slots r) ∧ palette r' = palette r))
    ∧ (truthy t = false →
         let removed := removeFromSource container fn r in
         r' = set_slots removed (<[dest := fn]> (slots removed))).
Proof.
  intros Hdrop Hr Hr' Hdest fn t.
  destruct (handleDrop_row _ _ _ _ _ _ _ Hdrop Hr Hr') as (c & Hc & Hne & ->).
  exists c. split; [done|]. fold fn.
  assert (read (slots (removeFromSource c fn r) !! dest) = t) as Hexisting.
  { unfold removeFromSource. repeat case_match; simpl; try done.
    by rewrite lookup_insert_ne. }
  unfold updateRow, placeIntoDest. rewrite Hdest, Hexisting.
  destruct (truthy t) eqn:Ht.
  - unfold removeFromSource.
    destruct (String.eqb_spec c "palette") as [->|Hcp]; simpl.
    + split_and!; try done.
      * by rewrite lookup_insert_eq.
      * intros k Hk _. by rewrite lookup_insert_ne.
    + destruct (startsWith "slot-" c) eqn:Hslot; simpl.
      * split_and!; try done.
        -- by rewrite lookup_insert_ne, lookup_insert_eq.
        -- intros k Hk Hkc. by rewrite !lookup_insert_ne.
        -- intros _. split_and!; try done. by rewrite lookup_insert_eq.
      * split_and!; try done.
        -- by rewrite lookup_insert_eq.
        -- intros k Hk _. by rewrite lookup_insert_ne.
  - split_and!; try done.
    + simpl. by rewrite lookup_insert_eq.
    + intros k Hk Hkc. simpl. rewrite lookup_insert_ne by done.
      unfold removeFromSource. repeat case_match; simpl; try done.
      by rewrite lookup_insert_ne.
Qed.

Lemma drop_on_slot_swaps_witness :
  let r := mkRow "row-1" [str "map"; str "reduce"; str "compress"]
             (<["slot-1-1" := str "filter"]> (slots (newRow 1))) [] in
  ∃ r', handleDrop [r] 0 "slot-1-1" "row-1:palette::map" = Applied [r']
        ∧ slots r' !! "slot-1-1" = Some (str "map")
        ∧ palette r' = [str "reduce"; str "compress"; str "filter"].
Proof.
  intros r.
  assert (∃ r', handleDrop [r] 0 "slot-1-1" "row-1:palette::map" = Applied [r'])
    as [r' Hdrop] by (eexists; vm_compute; reflexivity).
  exists r'. split; [exact Hdrop|].
  destruct (drop_on_slot_swaps [r] 0 "slot-1-1" "row-1:palette::map" [r'] r r')
    as (c & Hc & Hdest & _ & Hocc & _); try reflexivity; try exact Hdrop.
  split; [exact Hdest|].
  destruct (Hocc eq_refl) as (_ & Hpal & _).
  injection Hc as <-. by destruct (Hpal eq_refl) as (-> & _).
Defined.

(** ** Slot values under updates *)

Lemma slotValues_insert (m : SlotState) k v :
  slotValues (<[k:=v]> m) ≡ₚ v :: slotValues (delete k m).
Proof.
  unfold slotValues. rewrite <-(insert_delete_eq m).
  rewrite map_to_list_insert by apply lookup_delete_eq. done.
Qed.

Lemma slotValues_lookup (m : SlotState) k v :
  m !! k = Some v → slotValues m ≡ₚ v :: slotValues (delete k m).
Proof.
  intros Hk. unfold slotValues.
  rewrite <-(map_to_list_delete m k v Hk). csimpl. reflexivity.
Qed.

Lemma occupied_insert (m : SlotState) k v :
  occupied (<[k:=v]> m) ≡ₚ filter (λ v, truthy v) [v] ++ occupied (delete k m).
Proof.
  unfold occupied. rewrite slotValues_insert.
  rewrite <-(filter_app _ [v]). reflexivity.
Qed.

Lemma occupied_split (m : SlotState) k :
  occupied m ≡ₚ filter (λ v, truthy v) [read (m !! k)] ++ occupied (delete k m).
Proof.
  unfold occupied. destruct (m !! k) as [v|] eqn:Hk; simpl.
  - rewrite (slotValues_lookup m k v Hk) at 1.
    rewrite <-(filter_app _ [v]). reflexivity.
  - by rewrite delete_id.
Qed.

Lemma filter_truthy_1 v : truthy v = true → filter (λ v, truthy v) [v] = [v].
Proof. intros Hv. rewrite filter_cons, decide_True; [done|]. by apply Is_true_true. Qed.

Lemma filter_truthy_0 v : truthy v = false → filter (λ v, truthy v) [v] = [].
Proof. intros Hv. rewrite filter_cons, decide_False; [done|]. by apply Is_true_false. Qed.

(** ** Filtering a token out of a list *)

Lemma without_absent fn l : fn ∉ l → without fn l = l.
Proof.
  induction l as [|x l IH]; [done|]. intros Hnot.
  apply not_elem_of_cons in Hnot as [Hne Hl]. unfold without in *.
  rewrite filter_cons, decide_True by done. by rewrite IH.
Qed.

Lemma without_held fn l : NoDup l → fn ∈ l → without fn l ++ [fn] ≡ₚ l.
Proof.
  induction 1 as [|x l Hx Hl IH]; [by intros ?%elem_of_nil|].
  intros Hin. unfold without in *. rewrite filter_cons.
  destruct (decide (x = fn)) as [->|Hne].
  - rewrite decide_False by naive_solver.
    fold (without fn l). rewrite without_absent by done. solve_Permutation.
  - rewrite decide_True by done. simpl. rewrite IH; [done|].
    apply elem_of_cons in Hin as [?|?]; congruence.
Qed.

Lemma count_without fn l : count fn (without fn l) = 0.
Proof.
  unfold count, without. induction l as [|x l IH]; [done|].
  rewrite filter_cons. case_decide; [|done].
  rewrite filter_cons, decide_False by done. done.
Qed.

Lemma count_cons x y l :
  count x (y :: l) = (if decide (y = x) then 1 else 0) + count x l.
Proof. unfold count. rewrite filter_cons. by case_decide. Qed.

Lemma count_app x l k : count x (l ++ k) = count x l + count x k.
Proof. unfold count. by rewrite filter_app, length_app. Qed.

Lemma count_without_ne fn l x : x ≠ fn → count x (without fn l) = count x l.
Proof.
  intros Hne. induction l as [|y l IH]; [done|].
  unfold without in *. rewrite filter_cons. case_decide.
  - by rewrite !count_cons, IH.
  - rewrite count_cons, decide_False by naive_solver. done.
Qed.

Global Instance count_Permutation x : Proper ((≡ₚ) ==> (=)) (count x).
Proof. intros l k Hlk. unfold count. by rewrite Hlk. Qed.

(** ** Removal by name *)

Lemma count_slotValues_insert (m : SlotState) k v x :
  count x (slotValues (<[k:=v]> m))
  = (if decide (v = x) then 1 else 0) + count x (slotValues (delete k m)).
Proof. by rewrite slotValues_insert, count_cons. Qed.

Lemma count_slotValues_split (m : SlotState) k x :
  count x (slotValues m)
  = (match m !! k with
     | Some v => if decide (v = x) then 1 else 0
     | None => 0
     end) + count x (slotValues (delete k m)).
Proof.
  destruct (m !! k) as [v|] eqn:Hk.
  - by rewrite (slotValues_lookup m k v Hk) at 1; rewrite count_cons.
  - by rewrite delete_id.
Qed.

Lemma count_singleton x y : count x [y] = if decide (y = x) then 1 else 0.
Proof. rewrite count_cons. case_decide; done. Qed.

(** The removal takes every occurrence out of a palette or trash source. *)
Lemma removeFromSource_count c fn r :
  startsWith "slot-" c = false →
  count fn (source c (removeFromSource c fn r)) = 0
  ∧ count_token fn (removeFromSource c fn r) + count fn (source c r) = count_token fn r.
Proof.
  intros Hc. unfold removeFromSource, source, count_token. rewrite Hc.
  case_eqb; simpl; rewrite count_without; split; (done || lia).
Qed.

(** The placement adds one occurrence, less one when it overwrites an equal
    value that did not count as a token. *)
Lemma placeIntoDest_count c fn dest u :
  startsWith "slot-" c = false →
  count_token fn (placeIntoDest c fn dest u) ≤ count_token fn u + 1
  ∧ (truthy fn = true →
     count_token fn (placeIntoDest c fn dest u) = count_token fn u + 1).
Proof.
  intros Hc. unfold placeIntoDest, count_token. rewrite Hc.
  destruct (startsWith "slot-" dest).
  - rewrite (count_slotValues_split (slots u) dest fn).
    destruct (truthy (read (slots u !! dest))) eqn:Hex.
    + destruct (slots u !! dest) as [t|] eqn:Ht; [|done]. simpl in Hex |- *.
      case_eqb; simpl; rewrite count_slotValues_insert, count_app, count_singleton;
        rewrite (decide_True (P := fn = fn)) by done; split; intros; lia.
    + simpl. rewrite count_slotValues_insert.
      rewrite (decide_True (P := fn = fn)) by done. split.
      * destruct (slots u !! dest); [case_decide|]; lia.
      * intros Hfn. destruct (slots u !! dest) as [t|]; [|lia].
        rewrite decide_False; [lia|]. intros ->. simpl in Hex. congruence.
  - case_eqb; simpl; rewrite count_app, count_singleton;
      rewrite (decide_True (P := fn = fn)) by done; split; intros; lia.
Qed.

(** C10: when the palette or trash a token is dragged from holds it more
    than once, the removal filters out every occurrence and the placement
    puts one back, so the row holds fewer occurrences after an accepted
    drop than before. *)
Theorem drop_removes_every_occurrence rs rowIdx dest raw rs' r r' container :
  handleDrop rs rowIdx dest raw = Applied rs' →
  rs !! rowIdx = Some r → rs' !! rowIdx = Some r' →
  field (split_colon raw) 1 = str container →
  startsWith "slot-" container = false →
  let fn := field (split_colon raw) 3 in
  1 < count fn (source container r) →
  r' = placeIntoDest container fn dest (removeFromSource container fn r)
  ∧ count fn (source container (removeFromSource container fn r)) = 0
  ∧ count_token fn r' + count fn (source container r) ≤ count_token fn r + 1
  ∧ (truthy fn = true →
     count_token fn r' + count fn (source container r) = count_token fn r + 1)
  ∧ count_token fn r' < count_token fn r.
Proof.
  intros Hdrop Hr Hr' Hc Hslot fn Hmany.
  destruct (handleDrop_row _ _ _ _ _ _ _ Hdrop Hr Hr') as (c & Hc' & _ & ->).
  assert (c = container) as -> by congruence. fold fn. unfold updateRow.
  destruct (removeFromSource_count container fn r Hslot) as [Hzero Hrem].
  destruct (placeIntoDest_count container fn dest
              (removeFromSource container fn r) Hslot) as [Hle Heq].
  split_and!; try done; try lia. intros Hfn. specialize (Heq Hfn). lia.
Qed.

Lemma drop_removes_every_occurrence_witness :
  let r := mkRow "row-1" [str "map"; str "filter"; str "map"] (slots (newRow 1)) [] in
  ∃ r', handleDrop [r] 0 "slot-1-2" "row-1:palette::map" = Applied [r']
        ∧ palette r' = [str "filter"]
        ∧ count_token (str "map") r' < count_token (str "map") r.
Proof.
  intros r.
  assert (∃ r', handleDrop [r] 0 "slot-1-2" "row-1:palette::map" = Applied [r'])
    as [r' Hdrop] by (eexists; vm_compute; reflexivity).
  exists r'. split; [exact Hdrop|].
  destruct (drop_removes_every_occurrence [r] 0 "slot-1-2" "row-1:palette::map"
              [r'] r r' "palette")
    as (-> & _ & _ & _ & Hless); try reflexivity; try exact Hdrop.
  - vm_compute. lia.
  - split; [reflexivity | exact Hless].
Defined.

(** ** Conservation of the tokens of a row *)

Lemma updateRow_tokens r c fn dest :
  NoDup (tokens r) → truthy fn = true → held r c fn = true → c ≠ dest →
  tokens (updateRow c fn dest r) ≡ₚ tokens r.
Proof.
  intros Hnd Hfn Hheld Hne.
  unfold tokens in Hnd. apply NoDup_app in Hnd as (Hp & _ & Hnd).
  apply NoDup_app in Hnd as (_ & _ & Ht).
  unfold updateRow, removeFromSource, placeIntoDest, held, tokens in *.
  destruct (String.eqb_spec c "palette") as [->|Hcp].
  - apply bool_decide_eq_true in Hheld.
    pose proof (without_held fn _ Hp Hheld) as Hw.
    destruct (startsWith "slot-" dest) eqn:Hd; simpl.
    + destruct (truthy (read (slots r !! dest))) eqn:Hex; simpl.
      * rewrite occupied_insert, (occupied_split (slots r) dest).
        rewrite !filter_truthy_1 by done. rewrite <-Hw at 2. solve_Permutation.
      * rewrite occupied_insert, (occupied_split (slots r) dest).
        rewrite filter_truthy_1, filter_truthy_0 by done. rewrite <-Hw at 2. solve_Permutation.
    + case_eqb; [done|]. simpl. rewrite <-Hw at 2. solve_Permutation.
  - destruct (startsWith "slot-" c) eqn:Hc; simpl.
    + apply andb_true_iff in Hheld as [Hheld _]. apply bool_decide_eq_true in Hheld.
      destruct (startsWith "slot-" dest) eqn:Hd; simpl.
      * rewrite lookup_insert_ne by done.
        destruct (truthy (read (slots r !! dest))) eqn:Hex; simpl.
        -- rewrite occupied_insert, delete_insert_ne, delete_insert_eq by done.
           rewrite occupied_insert.
           rewrite (occupied_split (slots r) c), (occupied_split (delete c (slots r)) dest).
           rewrite lookup_delete_ne by done. rewrite Hheld. simpl.
           rewrite !filter_truthy_1 by done. solve_Permutation.
        -- rewrite occupied_insert, delete_insert_ne by congruence.
           rewrite occupied_insert.
           rewrite (occupied_split (slots r) dest), (occupied_split (delete dest (slots r)) c).
           rewrite lookup_delete_ne by congruence. rewrite Hheld. simpl.
           rewrite (filter_truthy_0 (read _)) by done.
           rewrite delete_delete. solve_Permutation.
      * rewrite (occupied_split (slots r) c), Hheld. simpl.
        case_eqb; simpl; rewrite occupied_insert, filter_truthy_0, filter_truthy_1 by done;
          solve_Permutation.
    + apply bool_decide_eq_true in Hheld.
      pose proof (without_held fn _ Ht Hheld) as Hw.
      destruct (startsWith "slot-" dest) eqn:Hd; simpl.
      * destruct (truthy (read (slots r !! dest))) eqn:Hex; simpl.
        -- rewrite occupied_insert, (occupied_split (slots r) dest).
           rewrite !filter_truthy_1 by done. rewrite <-Hw at 2. solve_Permutation.
        -- rewrite occupied_insert, (occupied_split (slots r) dest).
           rewrite filter_truthy_1, filter_truthy_0 by done. rewrite <-Hw at 2. solve_Permutation.
      * case_eqb; simpl; rewrite <-Hw at 2; solve_Permutation.
Qed.

Lemma ALL_FUNCTIONS_NoDup : NoDup ALL_FUNCTIONS.
Proof. apply (bool_decide_unpack _). vm_compute. exact I. Qed.

Lemma ALL_FUNCTIONS_truthy v : v ∈ ALL_FUNCTIONS → truthy v = true.
Proof. unfold ALL_FUNCTIONS. intros Hv. decompose_list_elem_of; by subst. Qed.

Lemma conserved_truthy r v : conserved r → v ∈ tokens r → truthy v = true.
Proof.
  unfold conserved. intros Hr Hv. apply ALL_FUNCTIONS_truthy. by rewrite <-Hr.
Qed.

Lemma conserved_updateRow r c fn dest :
  conserved r → held r c fn = true → c ≠ dest → conserved (updateRow c fn dest r).
Proof.
  intros Hr Hheld Hne. unfold conserved. rewrite updateRow_tokens; try done.
  - unfold conserved in Hr. rewrite Hr. apply ALL_FUNCTIONS_NoDup.
  - unfold held in Hheld. case_eqb.
    + apply bool_decide_eq_true in Hheld.
      apply (conserved_truthy r); [done|]. unfold tokens. set_solver.
    + destruct (startsWith "slot-" c).
      * by apply andb_true_iff in Hheld as [_ ?].
      * apply bool_decide_eq_true in Hheld.
        apply (conserved_truthy r); [done|]. unfold tokens. set_solver.
Qed.

(** An accepted drop of an honest payload keeps every row conserved. *)
Lemma handleDrop_conserves rs i dest raw rs' :
  Forall conserved rs → honest rs i raw = true →
  handleDrop rs i dest raw = Applied rs' → Forall conserved rs'.
Proof.
  intros Hrs Hhon Hdrop.
  apply handleDrop_Applied in Hdrop
    as (target & c & _ & Hi & Hrow & Hc & Hne & ->).
  apply mapRow_Forall; [done|]. intros r Hr Hcons. simplify_eq.
  unfold honest in Hhon. rewrite Hi, Hc, Hrow in Hhon.
  rewrite bool_decide_eq_false_2 in Hhon by naive_solver.
  by apply conserved_updateRow.
Qed.

Lemma occupied_all_empty (m : SlotState) :
  map_Forall (λ _ v, truthy v = false) m → occupied m = [].
Proof.
  intros Hm. unfold occupied, slotValues.
  assert (Forall (λ v, truthy v = false) (map_to_list m).*2) as Hall.
  { apply Forall_forall. intros v ([k v'] & -> & Hkv)%list_elem_of_fmap.
    apply elem_of_map_to_list in Hkv. by eapply Hm. }
  induction Hall as [|v l Hv _ IH]; [done|].
  rewrite filter_cons, decide_False; [done|]. by apply Is_true_false.
Qed.

Lemma conserved_fresh id k1 k2 k3 :
  conserved (mkRow id ALL_FUNCTIONS
               (<[k1 := null]> (<[k2 := null]> (<[k3 := null]> ∅))) []).
Proof.
  unfold conserved, tokens. simpl. rewrite occupied_all_empty.
  - by rewrite !app_nil_r.
  - repeat apply map_Forall_insert_2; try done.
Qed.

Lemma conserved_initialRows : Forall conserved initialRows.
Proof. constructor; [apply conserved_fresh | constructor]. Qed.

Lemma conserved_newRow n : conserved (newRow n).
Proof. apply conserved_fresh. Qed.

(** ** The snapshot log *)

Lemma rows_valid st : index st < length (history st) → is_Some (rows st).
Proof. intros Hlt. by apply lookup_lt_is_Some. Qed.

Lemma apply_length st newRows :
  index st < length (history st) →
  length (history (apply st newRows)) = index st + 2.
Proof. intros Hlt. simpl. rewrite length_app, length_take. simpl. lia. Qed.

Lemma apply_rows st newRows :
  index st < length (history st) → rows (apply st newRows) = Some newRows.
Proof.
  intros Hlt. unfold rows. simpl.
  rewrite lookup_app_r; rewrite length_take; [|lia].
  by replace (index st + 1 - (index st + 1) `min` length (history st)) with 0 by lia.
Qed.

Lemma apply_lookup_old st newRows j :
  j ≤ index st → index st < length (history st) →
  history (apply st newRows) !! j = history st !! j.
Proof.
  intros Hj Hlt. simpl.
  rewrite lookup_app_l by (rewrite length_take; lia).
  apply lookup_take_lt. lia.
Qed.

Lemma undo_history st : history (undo st) = history st.
Proof. unfold undo. by case_match. Qed.

Lemma redo_history st : history (redo st) = history st.
Proof. unfold redo. by case_match. Qed.

Lemma navigation_history es st st' :
  Forall navigation es → run es st = Returned st' → history st' = history st.
Proof.
  intros Hes. revert st. induction Hes as [|e es [-> | ->] _ IH]; intros st; simpl.
  - by intros [= ->].
  - intros Hrun. rewrite (IH _ Hrun). apply undo_history.
  - intros Hrun. rewrite (IH _ Hrun). apply redo_history.
Qed.

Lemma commits_step st e st' : commits st e st' → step st e = Returned st'.
Proof.
  destruct 1 as [st rs i dest raw newRows Hrs Hdrop | st rs Hrs]; simpl.
  - unfold drop. by rewrite Hrs, Hdrop.
  - unfold addRow. by rewrite Hrs.
Qed.

Lemma commits_apply st e st' : commits st e st' → ∃ newRows, st' = apply st newRows.
Proof. destruct 1; eauto. Qed.

(** C4: a commit at cursor [c] keeps the snapshots [0..c], appends the new
    one and moves the cursor onto it, the last index; redo does nothing in
    the new state, and no sequence of undo and redo brings back a snapshot
    that was after the cursor: the log stays the truncated one. *)
Theorem apply_truncates_and_appends st newRows :
  index st < length (history st) →
  let st' := apply st newRows in
  history st' = take (index st + 1) (history st) ++ [newRows] ∧
  (∀ j, j ≤ index st → history st' !! j = history st !! j) ∧
  length (history st') = index st + 2 ∧
  index st' = index st + 1 ∧
  index st' = length (history st') - 1 ∧
  rows st' = Some newRows ∧
  redo st' = st' ∧
  (∀ es st'', Forall navigation es → run es st' = Returned st'' →
     history st'' = take (index st + 1) (history st) ++ [newRows]).
Proof.
  intros Hlt st'. pose proof (apply_length st newRows Hlt) as Hlen.
  split_and!.
  - done.
  - intros j Hj. by apply apply_lookup_old.
  - done.
  - done.
  - change (index st + 1 = length (history (apply st newRows)) - 1).
    rewrite Hlen. lia.
  - by apply apply_rows.
  - subst st'. unfold redo. rewrite Hlen. cbn [index apply].
    by rewrite (proj2 (Nat.ltb_ge _ _)) by lia.
  - intros es st'' Hes Hrun. by rewrite (navigation_history es st' st'').
Qed.

Lemma apply_truncates_and_appends_witness :
  let one := [newRow 1] in
  let two := [newRow 1; newRow 2] in
  let three := [newRow 1; newRow 2; newRow 3] in
  let st := mkState [one; two; three] 1 in
  history (apply st one) = [one; two; one] ∧
  index (apply st one) = 2 ∧
  redo (apply st one) = apply st one.
Proof.
  intros one two three st.
  destruct (apply_truncates_and_appends st one) as (Hh & _ & _ & Hi & _ & _ & Hr & _).
  - simpl. lia.
  - split_and!; [exact Hh | exact Hi | exact Hr].
Defined.

(** C5: after a committed drop or added row, the committed snapshot is on
    display; undo shows again the snapshot that was on display before the
    mutation and redo after that undo shows the committed snapshot again;
    undo at cursor 0 and redo at the last index leave the state as it is. *)
Theorem undo_redo_roundtrip st e st' :
  index st < length (history st) →
  commits st e st' →
  step st e = Returned st' ∧
  (∃ newRows, st' = apply st newRows ∧ rows st' = Some newRows) ∧
  rows (undo st') = rows st ∧
  rows (redo (undo st')) = rows st' ∧
  (∀ s, index s = 0 → undo s = s) ∧
  (∀ s, index s = length (history s) - 1 → redo s = s).
Proof.
  intros Hlt Hc. split; [by apply commits_step|].
  destruct (commits_apply _ _ _ Hc) as [newRows ->].
  pose proof (apply_length st newRows Hlt) as Hlen.
  assert (undo (apply st newRows)
          = mkState (history (apply st newRows)) (index st)) as Hundo.
  { unfold undo. simpl. rewrite (proj2 (Nat.ltb_lt _ _)) by lia.
    f_equal. lia. }
  split_and!.
  - exists newRows. split; [done|]. by apply apply_rows.
  - rewrite Hundo. unfold rows at 1. cbn [index history].
    by apply apply_lookup_old.
  - rewrite Hundo. unfold redo. cbn [index history]. rewrite Hlen.
    rewrite (proj2 (Nat.ltb_lt _ _)) by lia. done.
  - intros s Hs. unfold undo. by rewrite Hs.
  - intros s Hs. unfold redo. by rewrite Hs, Nat.ltb_irrefl.
Qed.

Lemma undo_redo_roundtrip_witness :
  let st := mkState [initialRows] 0 in
  let e := Drop 0 "slot-1-1" "row-1:palette::map" in
  ∃ st', step st e = Returned st' ∧ rows (undo st') = Some initialRows
         ∧ rows (redo (undo st')) = rows st'.
Proof.
  intros st e.
  assert (commits st e (apply st
    [ mkRow "row-1" [str "filter"; str "reduce"; str "compress"]
        (<["slot-1-1" := str "map"]> (slots (newRow 1))) [] ])) as Hc.
  { apply (commits_drop st initialRows); [reflexivity | vm_compute; reflexivity]. }
  destruct (undo_redo_roundtrip st e _ ltac:(simpl; lia) Hc)
    as (Hstep & _ & Hundo & Hredo & _).
  eexists. split_and!; [exact Hstep | exact Hundo | exact Hredo].
Defined.

(** ** Payloads written by the drag-start handler *)

Lemma split_colon_colon_free s : colon_free s = true → split_colon s = [s].
Proof.
  induction s as [|ch s IH]; [done|]. simpl.
  intros [Hch Hs]%andb_true_iff. apply negb_true_iff in Hch.
  by rewrite Hch, IH.
Qed.

Lemma split_colon_piece a rest :
  colon_free a = true → split_colon (a +:+ ":" +:+ rest) = a :: split_colon rest.
Proof.
  induction a as [|ch a IH]; [done|]. simpl.
  intros [Hch Ha]%andb_true_iff. apply negb_true_iff in Hch.
  change (String ch a +:+ ":" +:+ rest) with (String ch (a +:+ ":" +:+ rest)).
  simpl. by rewrite Hch, IH.
Qed.

Lemma handleDragStart_split row container fn :
  colon_free row = true → colon_free container = true → colon_free fn = true →
  split_colon (handleDragStart row container fn) = [row; container; ""; fn].
Proof.
  intros Hrow Hc Hfn. unfold handleDragStart.
  rewrite split_colon_piece by done.
  change ("::" +:+ fn) with (":" +:+ "" +:+ ":" +:+ fn).
  rewrite split_colon_piece by done.
  rewrite (split_colon_piece "") by done.
  by rewrite split_colon_colon_free.
Qed.

(** The payload written when a token on display is dragged is honest for
    the row it was dragged from. *)
Lemma handleDragStart_honest rs i r container fn :
  rs !! i = Some r →
  colon_free (rowId r) = true → colon_free container = true → colon_free fn = true →
  held r container (str fn) = true →
  honest rs i (handleDragStart (rowId r) container fn) = true.
Proof.
  intros Hi Hrow Hc Hfn Hheld. unfold honest.
  rewrite handleDragStart_split, Hi by done.
  cbn [field lookup list_lookup]. rewrite Hheld. apply orb_true_r.
Qed.

(** ** Reachable states *)

Lemma well_formed_apply st newRows :
  well_formed st → Forall conserved newRows → well_formed (apply st newRows).
Proof.
  intros [Hlt Hall] Hnew. split.
  - rewrite apply_length by done. simpl. lia.
  - simpl. apply Forall_app. split; [by apply Forall_take | by constructor].
Qed.

Lemma well_formed_rows st rs :
  well_formed st → rows st = Some rs → Forall conserved rs.
Proof. intros [_ Hall] Hrs. by eapply Forall_lookup_1. Qed.

Lemma well_formed_step st e st' :
  well_formed st → fair st e = true → step st e = Returned st' → well_formed st'.
Proof.
  intros Hwf Hfair Hstep.
  destruct (rows_valid st (proj1 Hwf)) as [rs Hrs].
  pose proof (well_formed_rows st rs Hwf Hrs) as Hcons.
  destruct e as [i dest raw| | | |]; simpl in Hstep.
  - unfold drop in Hstep. unfold fair in Hfair. rewrite Hrs in Hstep, Hfair.
    destruct (handleDrop rs i dest raw) as [|newRows|] eqn:Hdrop; simplify_eq.
    + done.
    + apply well_formed_apply; [done|]. by eapply handleDrop_conserves.
  - unfold addRow in Hstep. rewrite Hrs in Hstep. simplify_eq.
    apply well_formed_apply; [done|].
    apply Forall_app. split; [done|]. constructor; [apply conserved_newRow | constructor].
  - simplify_eq. destruct Hwf as [Hlt Hall]. unfold undo.
    destruct (Nat.ltb_spec 0 (index st)); split; simpl; try done. lia.
  - simplify_eq. destruct Hwf as [Hlt Hall]. unfold redo.
    destruct (Nat.ltb_spec (index st) (length (history st) - 1)); split; simpl; try done. lia.
  - simplify_eq. split; simpl; [lia|].
    constructor; [apply conserved_initialRows | constructor].
Qed.

Lemma reachable_well_formed st : reachable st → well_formed st.
Proof.
  induction 1 as [|st e st' _ IH Hfair Hstep].
  - split; simpl; [lia|]. constructor; [apply conserved_initialRows | constructor].
  - by eapply well_formed_step.
Qed.

(** ** Row ids *)

Lemma pretty_N_go_colon_free x s :
  colon_free s = true → colon_free (pretty_N_go x s) = true.
Proof.
  revert s. induction (N.lt_wf_0 x) as [x _ IH]. intros s Hs.
  destruct (decide (x = 0)%N) as [->|Hx]; [by rewrite pretty_N_go_0|].
  rewrite pretty_N_go_step by lia. apply IH; [apply N.div_lt; lia|].
  simpl. rewrite Hs. unfold pretty_N_char. by repeat case_match.
Qed.

Lemma pretty_colon_free (n : nat) : colon_free (pretty n) = true.
Proof.
  unfold pretty, pretty_nat, pretty, pretty_N.
  case_decide; [done|]. by apply pretty_N_go_colon_free.
Qed.

Lemma colon_free_app a b :
  colon_free a = true → colon_free b = true → colon_free (a +:+ b) = true.
Proof.
  intros Ha Hb. induction a as [|ch a IH]; [done|].
  simpl in Ha. apply andb_true_iff in Ha as [Hch Ha].
  change (String ch a +:+ b) with (String ch (a +:+ b)). simpl.
  by rewrite Hch, IH.
Qed.

Lemma numbered_colon_free rs k r :
  numbered rs → rs !! k = Some r → colon_free (rowId r) = true.
Proof.
  intros Hrs Hk. rewrite (Hrs k r Hk).
  apply colon_free_app; [done | apply pretty_colon_free].
Qed.

Lemma numbered_inj rs i j ri rj :
  numbered rs → rs !! i = Some ri → rs !! j = Some rj →
  rowId ri = rowId rj → i = j.
Proof.
  intros Hrs Hi Hj. rewrite (Hrs i ri Hi), (Hrs j rj Hj).
  intros Heq. apply (inj (String.append "row-")) in Heq.
  apply (inj pretty) in Heq. lia.
Qed.

Lemma numbered_initialRows : numbered initialRows.
Proof. intros [|k] r Hk; simplify_eq/=. reflexivity. Qed.

Lemma numbered_mapRow rs i c fn dest :
  numbered rs → numbered (mapRow i (updateRow c fn dest) rs).
Proof.
  intros Hrs k r' Hk. destruct (decide (k = i)) as [->|Hne].
  - rewrite mapRow_lookup in Hk. destruct (rs !! i) as [r|] eqn:Hr; simplify_eq/=.
    rewrite updateRow_rowId. by apply Hrs.
  - rewrite mapRow_lookup_ne in Hk by done. by apply Hrs.
Qed.

Lemma numbered_addRow rs : numbered rs → numbered (rs ++ [newRow (length rs + 1)]).
Proof.
  intros Hrs k r Hk. apply lookup_app_Some in Hk as [Hk|[Hlen Hk]].
  - by apply Hrs.
  - apply list_lookup_singleton_Some in Hk as [Hk <-].
    replace k with (length rs) by lia. reflexivity.
Qed.

Lemma reachable_numbered st : reachable st → Forall numbered (history st).
Proof.
  induction 1 as [|st e st' Hst IH _ Hstep].
  - constructor; [apply numbered_initialRows | constructor].
  - assert (∀ newRows, numbered newRows → Forall numbered (history (apply st newRows)))
      as Happly.
    { intros newRows Hnew. simpl. apply Forall_app.
      split; [by apply Forall_take | by constructor]. }
    destruct (rows_valid st (proj1 (reachable_well_formed st Hst))) as [rs Hrs].
    assert (numbered rs) as Hnum by (by eapply Forall_lookup_1).
    destruct e as [i dest raw| | | |]; simpl in Hstep.
    + unfold drop in Hstep. rewrite Hrs in Hstep.
      destruct (handleDrop rs i dest raw) as [|newRows|] eqn:Hdrop; simplify_eq; [done|].
      apply handleDrop_Applied in Hdrop as (? & c & _ & _ & _ & _ & _ & ->).
      by apply Happly, numbered_mapRow.
    + unfold addRow in Hstep. rewrite Hrs in Hstep. simplify_eq.
      by apply Happly, numbered_addRow.
    + simplify_eq. by rewrite undo_history.
    + simplify_eq. by rewrite redo_history.
    + simplify_eq. constructor; [apply numbered_initialRows | constructor].
Qed.

(** Whatever token on display is dragged and wherever it is dropped, the
    drop is one of those the reachable states are closed under. *)
Lemma draggable_fair st rs j r container fn i dest :
  reachable st → rows st = Some rs → rs !! j = Some r → draggable r container fn →
  fair st (Drop i dest (handleDragStart (rowId r) container fn)) = true.
Proof.
  intros Hst Hrs Hj Hdrag.
  pose proof (reachable_well_formed st Hst) as Hwf.
  assert (numbered rs) as Hnum.
  { eapply Forall_lookup_1; [by apply reachable_numbered|done]. }
  assert (conserved r) as Hcons.
  { eapply Forall_lookup_1; [by eapply well_formed_rows|done]. }
  assert (colon_free (rowId r) = true) as Hid by (by eapply numbered_colon_free).
  assert (str fn ∈ ALL_FUNCTIONS) as Hfn.
  { unfold conserved in Hcons. rewrite <-Hcons. unfold tokens.
    destruct Hdrag as [[_ ?]|[_ ?]]; set_solver. }
  assert (colon_free fn = true) as Hfree.
  { unfold ALL_FUNCTIONS in Hfn. decompose_list_elem_of; by simplify_eq. }
  assert (colon_free container = true ∧ held r container (str fn) = true)
    as [Hc Hheld].
  { destruct Hdrag as [[-> ?]|[-> ?]]; (split; [done|]);
      unfold held; simpl; by apply bool_decide_eq_true. }
  unfold fair. rewrite Hrs.
  destruct (decide (i = j)) as [->|Hne].
  - by apply handleDragStart_honest.
  - unfold honest. rewrite handleDragStart_split by done.
    destruct (rs !! i) as [ri|] eqn:Hi; [|done].
    cbn [field lookup list_lookup].
    rewrite bool_decide_eq_true_2; [done|].
    intros [= Heq]. by apply Hne, (numbered_inj rs i j ri r).
Qed.

(** ** Conservation in the reachable states *)

(** C1 (amended): an accepted drop whose payload names a token that the
    named source container of the target row holds keeps the tokens of every
    row (palette, occupied slots, trash) a permutation of the four
    functions. Every drag of a token on display gives such a payload,
    wherever it is dropped. So in every state reached from the initial one
    by such drops, also mixed with added rows, undo, redo and clear, every
    row on display holds each of the four functions exactly once. *)
Theorem honest_drops_conserve_tokens :
  (∀ rs rowIdx dest raw rs',
     Forall conserved rs → honest rs rowIdx raw = true →
     handleDrop rs rowIdx dest raw = Applied rs' → Forall conserved rs')
  ∧ (∀ st rs j r container fn rowIdx dest,
       reachable st → rows st = Some rs → rs !! j = Some r →
       draggable r container fn →
       fair st (Drop rowIdx dest (handleDragStart (rowId r) container fn)) = true)
  ∧ (∀ st, reachable st →
       ∃ rs, rows st = Some rs ∧ Forall (λ r, tokens r ≡ₚ ALL_FUNCTIONS) rs).
Proof.
  split_and!.
  - apply handleDrop_conserves.
  - intros. by eapply draggable_fair.
  - intros st Hst%reachable_well_formed.
    destruct (rows_valid st (proj1 Hst)) as [rs Hrs].
    exists rs. split; [done|]. by eapply well_formed_rows.
Qed.

Lemma honest_drops_conserve_tokens_witness :
  let dropped :=
    [ mkRow "row-1" [str "filter"; str "reduce"; str "compress"]
        (<["slot-1-1" := str "map"]> (slots (newRow 1))) [] ] in
  Forall conserved dropped
  ∧ fair (mkState [initialRows] 0)
      (Drop 0 "slot-1-1" (handleDragStart "row-1" "palette" "map")) = true
  ∧ ∃ rs, rows (apply (mkState [initialRows] 0) dropped) = Some rs
          ∧ Forall (λ r, tokens r ≡ₚ ALL_FUNCTIONS) rs.
Proof.
  intros dropped.
  destruct honest_drops_conserve_tokens as (Hstep & Hfair & Hreach). split_and!.
  - apply (Hstep initialRows 0 "slot-1-1" "row-1:palette::map").
    + apply conserved_initialRows.
    + vm_compute. reflexivity.
    + vm_compute. reflexivity.
  - apply (Hfair (mkState [initialRows] 0) initialRows 0
             (mkRow "row-1" ALL_FUNCTIONS (slots (newRow 1)) [])).
    + apply reachable_initial.
    + reflexivity.
    + vm_compute. reflexivity.
    + left. split; [reflexivity|]. apply (bool_decide_unpack _). vm_compute. exact I.
  - apply Hreach.
    apply (reachable_step (mkState [initialRows] 0)
             (Drop 0 "slot-1-1" "row-1:palette::map")).
    + apply reachable_initial.
    + vm_compute. reflexivity.
    + vm_compute. reflexivity.
Defined.

(** C1, as stated, fails: a payload naming the trash for a token that is in
    the palette is accepted in the initial state and leaves [map] twice in
    the palette of [row-1]. *)
Lemma forged_payload_duplicates_token :
  ∃ st' r',
    step (mkState [initialRows] 0) (Drop 0 "palette" "row-1:trash::map") = Returned st'
    ∧ rows st' = Some [r']
    ∧ palette r' = [str "map"; str "filter"; str "reduce"; str "compress"; str "map"]
    ∧ ¬ tokens r' ≡ₚ ALL_FUNCTIONS.
Proof.
  eexists _, _. split_and!.
  - vm_compute. reflexivity.
  - vm_compute. reflexivity.
  - reflexivity.
  - intros Hperm%Permutation_length. vm_compute in Hperm. discriminate.
Qed.

(** ** Persistence of the history *)

Section PersistenceProperties.
Variable JSON_stringify : list Snapshot → string.
Variable JSON_parse : string → outcome parsed.

Local Abbreviation loadHistory := (loadHistory JSON_parse).
Local Abbreviation initialHistory := (initialHistory JSON_parse).
Local Abbreviation saveHistory := (saveHistory JSON_stringify).
Local Abbreviation persistEffect := (persistEffect JSON_stringify).
Local Abbreviation mount := (mount JSON_stringify JSON_parse).
Local Abbreviation clickClearAll := (clickClearAll JSON_stringify).

Lemma saveHistory_getItem h ls :
  getItem STORAGE_KEY (saveHistory h ls) = Some (JSON_stringify h).
Proof. apply lookup_insert_eq. Qed.

(** The first render on an empty storage shows the initial snapshot. *)
Lemma mount_empty :
  mount ∅ = Returned (mkState [initialRows] 0, saveHistory [initialRows] ∅).
Proof. reflexivity. Qed.

(** C3, evaluated: after a click on Clear All the log is the single
    initial snapshot and the cursor is 0; the handler has removed the
    persisted history, but the effect of the render that follows writes
    the new one-snapshot log under the key again. *)
Theorem clearAll_leaves_history_persisted ls :
  let '(st, ls') := clickClearAll ls in
  history st = [initialRows] ∧ index st = 0 ∧ rows st = Some initialRows
  ∧ getItem STORAGE_KEY (clearAll ls).2 = None
  ∧ getItem STORAGE_KEY ls' = Some (JSON_stringify [initialRows]).
Proof.
  unfold clickClearAll. simpl. split_and!; try done.
  - apply lookup_delete_eq.
  - apply saveHistory_getItem.
Qed.

(** C8: [loadHistory] returns for every storage content and never
    throws; when the key is missing or [JSON.parse] throws on what is
    stored, it returns the empty list, the history cell starts as the log
    with the initial snapshot alone, and mounting succeeds at cursor 0. *)
Theorem loadHistory_falls_back ls :
  (∃ loaded, loadHistory ls = Returned loaded)
  ∧ (absent_or_corrupt JSON_parse ls →
     loadHistory ls = Returned (json_history [])
     ∧ initialHistory ls = Returned [initialRows]
     ∧ mount ls = Returned (mkState [initialRows] 0, saveHistory [initialRows] ls)).
Proof.
  assert (absent_or_corrupt JSON_parse ls →
          loadHistory ls = Returned (json_history [])) as Hload.
  { unfold absent_or_corrupt, loadHistory.
    destruct (getItem STORAGE_KEY ls) as [stored|]; [|done].
    intros Hthrow. case_eqb; [done|]. by rewrite Hthrow. }
  split.
  - unfold loadHistory.
    destruct (getItem STORAGE_KEY ls) as [stored|]; [|by eexists].
    case_eqb; [by eexists|].
    destruct (JSON_parse stored); by eexists.
  - intros Hbad. specialize (Hload Hbad). split; [done|].
    unfold mount, initialHistory. rewrite Hload. done.
Qed.

(** Outside that case the cast is trusted: stored text that parses to
    [null] reaches [loaded.length] and the initializer throws. *)
Lemma initialHistory_null ls stored :
  getItem STORAGE_KEY ls = Some stored → stored ≠ "" →
  JSON_parse stored = Returned json_null → initialHistory ls = Threw.
Proof.
  intros Hget Hne Hparse. unfold initialHistory, loadHistory. rewrite Hget.
  case_eqb; [done|]. by rewrite Hparse.
Qed.

(** C9: when the stored text parses to a log of [n > 0] snapshots, the
    component starts on that log with the cursor at [n - 1]: the last
    snapshot is on display and redo does nothing. What is persisted is a
    function of the log alone, so the cursor of the session that saved it
    plays no part. *)
Theorem mount_cursor_at_last ls stored h :
  getItem STORAGE_KEY ls = Some stored → stored ≠ "" →
  JSON_parse stored = Returned (json_history h) → h ≠ [] →
  let st := mkState h (length h - 1) in
  mount ls = Returned (st, saveHistory h ls)
  ∧ rows st = last h
  ∧ redo st = st
  ∧ (∀ s s' ls0, history s = history s' →
       (persistEffect s ls0).2 = (persistEffect s' ls0).2).
Proof.
  intros Hget Hne Hparse Hh st. split_and!.
  - unfold mount, initialHistory, loadHistory. rewrite Hget.
    case_eqb; [done|]. rewrite Hparse. simpl.
    destruct h; [done|]. reflexivity.
  - unfold rows, st. simpl. by rewrite last_lookup, Nat.sub_1_r.
  - unfold redo, st. simpl. by rewrite Nat.ltb_irrefl.
  - intros s s' ls0 Heq. unfold persistEffect. simpl. by rewrite Heq.
Qed.
End PersistenceProperties.

Lemma loadHistory_falls_back_witness :
  let parse := λ stored, if startsWith "[" stored
                         then Returned (json_history [initialRows]) else Threw in
  let ls : Storage := {[ STORAGE_KEY := "{not json" ]} in
  initialHistory parse ls = Returned [initialRows].
Proof.
  intros parse ls.
  destruct (loadHistory_falls_back (λ _, "[]") parse ls) as [_ Hfall].
  destruct Hfall as (_ & Hinit & _).
  - vm_compute. reflexivity.
  - exact Hinit.
Defined.

Lemma mount_cursor_at_last_witness :
  let parse := λ stored, if startsWith "[" stored
                         then Returned (json_history [initialRows; [newRow 1; newRow 2]])
                         else Threw in
  let ls : Storage := {[ STORAGE_KEY := "[[],[]]" ]} in
  ∃ ls', mount (λ _, "[]") parse ls
         = Returned (mkState [initialRows; [newRow 1; newRow 2]] 1, ls').
Proof.
  intros parse ls. eexists.
  refine (proj1 (mount_cursor_at_last (λ _, "[]") parse ls "[[],[]]"
                   [initialRows; [newRow 1; newRow 2]] _ _ _ _)).
  - vm_compute. reflexivity.
  - discriminate.
  - reflexivity.
  - discriminate.
Defined.

(** * Further properties of the handlers *)

#[local] Set Warnings "-clear-no-such-hyp".

(** ** The cursor *)

Lemma step_keeps_cursor st e st' :
  index st < length (history st) → step st e = Returned st' →
  index st' < length (history st').
Proof.
  intros Hlt Hstep. destruct (rows_valid st Hlt) as [rs Hrs].
  destruct e as [i dest raw| | | |]; simpl in Hstep.
  - unfold drop in Hstep. rewrite Hrs in Hstep.
    destruct (handleDrop rs i dest raw); simplify_eq; [done|].
    rewrite apply_length by done. simpl. lia.
  - unfold addRow in Hstep. rewrite Hrs in Hstep. simplify_eq.
    rewrite apply_length by done. simpl. lia.
  - simplify_eq. unfold undo. destruct (Nat.ltb_spec 0 (index st)); simpl; lia.
  - simplify_eq. unfold redo.
    destruct (Nat.ltb_spec (index st) (length (history st) - 1)); simpl; lia.
  - simplify_eq. simpl. lia.
Qed.

(** X1: whatever the events and whatever the payloads of the drops, as long
    as no handler throws the cursor stays inside the log, so there is always
    a snapshot on display. *)
Theorem run_keeps_cursor es st st' :
  index st < length (history st) → run es st = Returned st' →
  index st' < length (history st') ∧ is_Some (rows st').
Proof.
  revert st. induction es as [|e es IH]; intros st Hlt Hrun; simpl in Hrun.
  - simplify_eq. split; [done | by apply rows_valid].
  - destruct (step st e) as [st1|] eqn:Hstep; [|done].
    apply (IH st1); [by eapply step_keeps_cursor | done].
Qed.

Lemma run_keeps_cursor_witness :
  ∃ st', run [Drop 0 "palette" "row-1:trash::map"; AddRow; Undo; Undo; Undo; Redo]
           (mkState [initialRows] 0) = Returned st'
         ∧ index st' < length (history st').
Proof.
  assert (∃ st', run [Drop 0 "palette" "row-1:trash::map"; AddRow; Undo; Undo; Undo; Redo]
                   (mkState [initialRows] 0) = Returned st')
    as [st' Hrun] by (eexists; vm_compute; reflexivity).
  exists st'. split; [exact Hrun|].
  apply (proj1 (run_keeps_cursor _ (mkState [initialRows] 0) _ ltac:(simpl; lia) Hrun)).
Defined.

(** X2: inside the log undo and redo are inverse to each other: redo after
    an undo that moved, and undo after a redo that moved, give the state
    back. *)
Theorem undo_redo_inverse st :
  index st < length (history st) →
  (0 < index st → redo (undo st) = st)
  ∧ (index st + 1 < length (history st) → undo (redo st) = st).
Proof.
  intros Hlt. destruct st as [h c]. simpl in Hlt. split; intros Hc; simpl in Hc.
  - unfold undo. simpl. rewrite (proj2 (Nat.ltb_lt _ _)) by done.
    unfold redo. simpl. rewrite (proj2 (Nat.ltb_lt _ _)) by lia. f_equal. lia.
  - unfold redo. simpl. rewrite (proj2 (Nat.ltb_lt _ _)) by lia.
    unfold undo. simpl. rewrite (proj2 (Nat.ltb_lt _ _)) by lia. f_equal. lia.
Qed.

Lemma undo_redo_inverse_witness :
  let st := mkState [[newRow 1]; [newRow 1; newRow 2]; [newRow 1]] 1 in
  redo (undo st) = st ∧ undo (redo st) = st.
Proof.
  intros st.
  destruct (undo_redo_inverse st ltac:(simpl; lia)) as [Hru Hur].
  split; [apply Hru | apply Hur]; simpl; lia.
Defined.

(** X3: the Undo button is disabled exactly in the states where [undo]
    changes nothing, and the Redo button exactly where [redo] changes
    nothing. *)
Theorem toolbar_matches_handlers st :
  (undoDisabled st = true ↔ undo st = st)
  ∧ (redoDisabled st = true ↔ redo st = st).
Proof.
  destruct st as [h c]. unfold undoDisabled, redoDisabled, undo, redo. simpl. split.
  - destruct (Nat.eqb_spec c 0) as [->|Hc]; simpl; [done|].
    rewrite (proj2 (Nat.ltb_lt _ _)) by lia. split; [done|]. intros [= Heq]. lia.
  - destruct (Nat.leb_spec (length h - 1) c) as [Hc|Hc].
    + by rewrite (proj2 (Nat.ltb_ge _ _)) by lia.
    + rewrite (proj2 (Nat.ltb_lt _ _)) by lia. split; [done|]. intros [= Heq]. lia.
Qed.

(** X4: after a commit Undo is enabled and Redo is disabled; after the undo
    of that commit Redo is enabled. *)
Theorem toolbar_after_commit st newRows :
  index st < length (history st) →
  undoDisabled (apply st newRows) = false
  ∧ redoDisabled (apply st newRows) = true
  ∧ redoDisabled (undo (apply st newRows)) = false.
Proof.
  intros Hlt. pose proof (apply_length st newRows Hlt) as Hlen.
  unfold undoDisabled, redoDisabled. split_and!.
  - apply Nat.eqb_neq. simpl. lia.
  - apply Nat.leb_le. rewrite Hlen. simpl. lia.
  - rewrite undo_history, Hlen. unfold undo. cbn [index apply].
    rewrite (proj2 (Nat.ltb_lt _ _)) by lia. apply Nat.leb_gt. simpl. lia.
Qed.

Lemma toolbar_after_commit_witness :
  let st := apply (mkState [initialRows] 0) [newRow 1; newRow 2] in
  undoDisabled st = false ∧ redoDisabled st = true ∧ redoDisabled (undo st) = false.
Proof.
  intros st. apply (toolbar_after_commit (mkState [initialRows] 0)). simpl. lia.
Defined.

(** ** Added rows *)

Lemma newRow_slots_size n : size (slots (newRow n)) = 3.
Proof.
  unfold newRow. simpl.
  assert (∀ a b : string, a ≠ b →
            "slot-" +:+ pretty n +:+ a ≠ "slot-" +:+ pretty n +:+ b) as Hne.
  { intros a b Hab Heq. apply (inj (String.append "slot-")) in Heq.
    by apply (inj (String.append (pretty n))) in Heq. }
  rewrite !map_size_insert_None, map_size_empty; [done|..].
  - apply lookup_empty.
  - rewrite lookup_insert_ne by (by apply Hne). apply lookup_empty.
  - rewrite !lookup_insert_ne by (by apply Hne). apply lookup_empty.
Qed.

(** X5: [addRow] commits the snapshot on display with one row more: the
    rows that were there, unchanged, then a row named after the new row
    count, with the full palette, an empty trash and three slots, all
    empty; undo shows the rows without it again. *)
Theorem addRow_appends_row st rs :
  rows st = Some rs →
  let r := newRow (length rs + 1) in
  ∃ st', addRow st = Returned st'
    ∧ rows st' = Some (rs ++ [r])
    ∧ rows (undo st') = Some rs
    ∧ rowId r = "row-" +:+ pretty (length rs + 1)
    ∧ palette r = ALL_FUNCTIONS ∧ trash r = []
    ∧ size (slots r) = 3
    ∧ map_Forall (λ _ v, v = null) (slots r).
Proof.
  intros Hrs r. assert (index st < length (history st)) as Hlt.
  { by apply lookup_lt_is_Some. }
  exists (apply st (rs ++ [r])). split_and!; try done.
  - unfold addRow. by rewrite Hrs.
  - by apply apply_rows.
  - unfold undo. cbn [index apply]. rewrite (proj2 (Nat.ltb_lt _ _)) by lia.
    unfold rows. cbn [index history].
    replace (index st + 1 - 1) with (index st) by lia.
    change (history (apply st (rs ++ [r])) !! index st = Some rs).
    by rewrite apply_lookup_old.
  - apply newRow_slots_size.
  - repeat apply map_Forall_insert_2; try done.
Qed.

Lemma addRow_appends_row_witness :
  ∃ st', addRow (mkState [initialRows] 0) = Returned st'
         ∧ rows st' = Some (initialRows ++ [newRow 2])
         ∧ rows (undo st') = Some initialRows.
Proof.
  destruct (addRow_appends_row (mkState [initialRows] 0) initialRows eq_refl)
    as (st' & Hadd & Hrows & Hundo & _).
  exists st'. split_and!; [exact Hadd | exact Hrows | exact Hundo].
Defined.

(** ** Payloads *)

Lemma split_colon_cons s : ∃ piece pieces, split_colon s = piece :: pieces.
Proof.
  induction s as [|ch s (piece & pieces & IH)]; simpl; [by eexists _, _|].
  destruct (is_colon ch); [by eexists _, _|]. rewrite IH. by eexists _, _.
Qed.

Lemma split_colon_two s :
  colon_free s = false → ∃ a b rest, split_colon s = a :: b :: rest.
Proof.
  induction s as [|ch s IH]; [done|]. simpl.
  destruct (is_colon ch); simpl.
  - intros _. destruct (split_colon_cons s) as (p & ps & ->). by eexists _, _, _.
  - intros (a & b & rest & ->)%IH. by eexists _, _, _.
Qed.

Lemma handleDragStart_pieces row container fn :
  colon_free row = true → colon_free container = true →
  split_colon (handleDragStart row container fn)
  = row :: container :: "" :: split_colon fn.
Proof.
  intros Hrow Hc. unfold handleDragStart.
  rewrite split_colon_piece by done.
  change ("::" +:+ fn) with (":" +:+ "" +:+ ":" +:+ fn).
  rewrite split_colon_piece by done.
  by rewrite (split_colon_piece "") by done.
Qed.

Lemma handleDragStart_nonempty row container fn :
  String.eqb (handleDragStart row container fn) "" = false.
Proof. apply String.eqb_neq. unfold handleDragStart. by destruct row. Qed.

Lemma handleDrop_dragged rs rowIdx r container fn dest :
  rs !! rowIdx = Some r →
  colon_free (rowId r) = true → colon_free container = true → container ≠ dest →
  handleDrop rs rowIdx dest (handleDragStart (rowId r) container fn)
  = Applied (mapRow rowIdx
               (updateRow container (str (hd "" (split_colon fn))) dest) rs).
Proof.
  intros Hr Hid Hc Hne. unfold handleDrop.
  rewrite handleDragStart_nonempty, handleDragStart_pieces, Hr by done.
  destruct (split_colon_cons fn) as (piece & pieces & ->).
  cbn [field lookup list_lookup hd].
  rewrite bool_decide_eq_false_2 by (intros Hx; by apply Hx).
  rewrite bool_decide_eq_false_2 by congruence. done.
Qed.

(** X6: the payload written by [handleDragStart] for a row, a container and
    a token comes back from the parse of [handleDrop]: dropped on another
    container of that row it is accepted and moves, from the named
    container, the token up to its first colon, which is the whole token
    when it has none. The row id and the container must have no colon. *)
Theorem drop_of_dragged_payload rs rowIdx r container fn dest :
  rs !! rowIdx = Some r →
  colon_free (rowId r) = true → colon_free container = true → container ≠ dest →
  handleDrop rs rowIdx dest (handleDragStart (rowId r) container fn)
  = Applied (mapRow rowIdx
               (updateRow container (str (hd "" (split_colon fn))) dest) rs)
  ∧ (colon_free fn = true → hd "" (split_colon fn) = fn).
Proof.
  intros Hr Hid Hc Hne. split.
  - by apply handleDrop_dragged.
  - intros Hfn. by rewrite split_colon_colon_free.
Qed.

Lemma drop_of_dragged_payload_witness :
  handleDrop [newRow 1; newRow 2] 1 "trash" (handleDragStart "row-2" "palette" "reduce")
  = Applied (mapRow 1 (updateRow "palette" (str "reduce") "trash") [newRow 1; newRow 2]).
Proof.
  apply (drop_of_dragged_payload [newRow 1; newRow 2] 1 (newRow 2) "palette" "reduce" "trash");
    (reflexivity || discriminate).
Defined.

(** X7: [handleDrop] throws exactly when the payload is not empty and either
    there is no row at the index, or the payload is the id of that row with
    nothing after it, so that no container was parsed. *)
Theorem handleDrop_throws_iff rs rowIdx dest raw :
  handleDrop rs rowIdx dest raw = TypeError ↔
  raw ≠ "" ∧ (rs !! rowIdx = None
              ∨ ∃ target, rs !! rowIdx = Some target
                          ∧ colon_free raw = true ∧ raw = rowId target).
Proof.
  unfold handleDrop. case_eqb; [naive_solver|].
  destruct (rs !! rowIdx) as [target|]; [|naive_solver].
  destruct (colon_free raw) eqn:Hfree.
  - rewrite split_colon_colon_free by done. cbn [field lookup list_lookup].
    rewrite (bool_decide_eq_false_2 (undefined = _)) by done.
    destruct (decide (rowId target = raw)) as [Heq|Hneq].
    + rewrite bool_decide_eq_false_2 by (intros Hx; apply Hx; congruence).
      simpl. naive_solver.
    + rewrite bool_decide_eq_true_2 by congruence. simpl. naive_solver.
  - destruct (split_colon_two raw Hfree) as (a & b & rest & ->).
    cbn [field lookup list_lookup].
    destruct (_ || _); (split; [done | intros (_ & [?|(? & _ & ? & _)]); done]).
Qed.

(** ** Slots *)

Lemma slot_not_palette c : startsWith "slot-" c = true → String.eqb c "palette" = false.
Proof. intros Hc. apply String.eqb_neq. by intros ->. Qed.

(** X8: an accepted drop keeps every slot of the row and adds a slot only
    under a slot name the row did not have: the name of the source, when the
    payload names a slot, and the destination, when it is a slot. Between
    containers the row has, its slots stay the same. *)
Theorem drop_slot_keys rs rowIdx dest raw rs' r r' :
  handleDrop rs rowIdx dest raw = Applied rs' →
  rs !! rowIdx = Some r → rs' !! rowIdx = Some r' →
  ∃ container,
    field (split_colon raw) 1 = str container
    ∧ dom (slots r')
      = dom (slots r)
        ∪ (if startsWith "slot-" container then {[container]} else ∅)
        ∪ (if startsWith "slot-" dest then {[dest]} else ∅)
    ∧ ((startsWith "slot-" container = true → container ∈ dom (slots r)) →
       (startsWith "slot-" dest = true → dest ∈ dom (slots r)) →
       dom (slots r') = dom (slots r)).
Proof.
  intros Hdrop Hr Hr'.
  destruct (handleDrop_row _ _ _ _ _ _ _ Hdrop Hr Hr') as (c & Hc & Hne & ->).
  exists c. split; [done|].
  assert (dom (slots (updateRow c (field (split_colon raw) 3) dest r))
          = dom (slots r)
            ∪ (if startsWith "slot-" c then {[c]} else ∅)
            ∪ (if startsWith "slot-" dest then {[dest]} else ∅)) as Hdom.
  { unfold updateRow, placeIntoDest, removeFromSource.
    destruct (String.eqb_spec c "palette") as [->|Hcp]; simpl.
    - destruct (startsWith "slot-" dest); [|case_eqb; simpl; set_solver].
      destruct (truthy _); simpl; rewrite dom_insert_L; set_solver.
    - destruct (startsWith "slot-" c) eqn:Hslot; simpl.
      + destruct (startsWith "slot-" dest); [|case_eqb; simpl; rewrite dom_insert_L; set_solver].
        destruct (truthy _); simpl; rewrite !dom_insert_L; set_solver.
      + destruct (startsWith "slot-" dest); [|case_eqb; simpl; set_solver].
        destruct (truthy _); simpl; rewrite dom_insert_L; set_solver. }
  split; [done|]. intros Hcin Hdin. rewrite Hdom.
  destruct (startsWith "slot-" c), (startsWith "slot-" dest);
    try specialize (Hcin eq_refl); try specialize (Hdin eq_refl); set_solver.
Qed.

Lemma drop_slot_keys_witness :
  ∃ r', handleDrop initialRows 0 "slot-1-2" "row-1:palette::map" = Applied [r']
        ∧ dom (slots r') = dom (slots (newRow 1)).
Proof.
  assert (∃ r', handleDrop initialRows 0 "slot-1-2" "row-1:palette::map" = Applied [r'])
    as [r' Hdrop] by (eexists; vm_compute; reflexivity).
  exists r'. split; [exact Hdrop|].
  destruct (drop_slot_keys initialRows 0 "slot-1-2" "row-1:palette::map" [r']
              (mkRow "row-1" ALL_FUNCTIONS (slots (newRow 1)) []) r' Hdrop)
    as (c & Hc & _ & Hsame); try reflexivity.
  injection Hc as <-. apply Hsame.
  - discriminate.
  - intros _. apply elem_of_dom. exists null. vm_compute. reflexivity.
Defined.

Lemma mapRow_insert i f rs r : rs !! i = Some r → mapRow i f rs = <[i := f r]> rs.
Proof.
  intros Hr. apply list_eq. intros j. destruct (decide (j = i)) as [->|Hne].
  - rewrite mapRow_lookup, Hr, list_lookup_insert_eq; [done|].
    by eapply lookup_lt_Some.
  - by rewrite mapRow_lookup_ne, list_lookup_insert_ne.
Qed.

Lemma updateRow_slot_swap r a b fn t :
  a ≠ b → startsWith "slot-" a = true → startsWith "slot-" b = true →
  slots r !! b = Some t → truthy t = true →
  updateRow a fn b r
  = set_slots r (<[a := t]> (<[b := fn]> (<[a := null]> (slots r)))).
Proof.
  intros Hab Ha Hb Ht Htruthy. unfold updateRow, removeFromSource.
  rewrite slot_not_palette, Ha by done.
  unfold placeIntoDest. rewrite Hb. cbn [slots set_slots].
  rewrite lookup_insert_ne, Ht by done. change (read (Some t)) with t.
  rewrite Htruthy, Ha. done.
Qed.

Lemma swap_twice r a b fn t :
  a ≠ b → startsWith "slot-" a = true → startsWith "slot-" b = true →
  slots r !! a = Some fn → slots r !! b = Some t → truthy t = true →
  updateRow b fn a (updateRow a fn b r) = r.
Proof.
  intros Hab Ha Hb Hfn Ht Htruthy.
  rewrite (updateRow_slot_swap r a b fn t) by done.
  rewrite (updateRow_slot_swap _ b a fn t); try done.
  - destruct r as [id p s tr]. unfold set_slots. simpl in *. f_equal.
    apply map_eq. intros k.
    destruct (decide (k = b)) as [->|Hkb]; [by rewrite lookup_insert_eq|].
    rewrite lookup_insert_ne by done.
    destruct (decide (k = a)) as [->|Hka]; [by rewrite lookup_insert_eq|].
    by rewrite !lookup_insert_ne by done.
  - simpl. by rewrite lookup_insert_eq.
Qed.

(** X9: dragging the token of one occupied slot onto another occupied slot
    exchanges the two tokens, and dragging it back exchanges them again: the
    snapshot is the one before the two drops. *)
Theorem slot_swap_is_involution rs rowIdx r a b fn t :
  rs !! rowIdx = Some r →
  colon_free (rowId r) = true → colon_free a = true → colon_free b = true →
  colon_free fn = true →
  a ≠ b → startsWith "slot-" a = true → startsWith "slot-" b = true →
  slots r !! a = Some (str fn) → slots r !! b = Some t → truthy t = true →
  ∃ rs1 r1,
    handleDrop rs rowIdx b (handleDragStart (rowId r) a fn) = Applied rs1
    ∧ rs1 !! rowIdx = Some r1
    ∧ slots r1 !! a = Some t ∧ slots r1 !! b = Some (str fn)
    ∧ handleDrop rs1 rowIdx a (handleDragStart (rowId r) b fn) = Applied rs.
Proof.
  intros Hr Hid Ha Hb Hfn Hab Hsa Hsb Hfa Htb Ht.
  pose proof (split_colon_colon_free fn Hfn) as Hsplit.
  set (r1 := updateRow a (str fn) b r).
  assert (rowId r1 = rowId r) as Hid1 by apply updateRow_rowId.
  exists (<[rowIdx := r1]> rs), r1.
  assert (rowIdx < length rs) as Hlt by (by eapply lookup_lt_Some).
  assert (<[rowIdx := r1]> rs !! rowIdx = Some r1) as Hr1
    by (by apply list_lookup_insert_eq).
  split_and!.
  - rewrite handleDrop_dragged, Hsplit by done. simpl.
    by rewrite (mapRow_insert _ _ _ r).
  - done.
  - subst r1. rewrite (updateRow_slot_swap r a b _ t) by done. simpl.
    by rewrite lookup_insert_eq.
  - subst r1. rewrite (updateRow_slot_swap r a b _ t) by done. simpl.
    by rewrite lookup_insert_ne, lookup_insert_eq.
  - rewrite <-Hid1.
    rewrite handleDrop_dragged, Hsplit by (done || congruence). simpl.
    rewrite (mapRow_insert _ _ _ r1) by done.
    rewrite list_insert_insert_eq. subst r1.
    rewrite (swap_twice r a b (str fn) t) by done.
    f_equal. by apply list_insert_id.
Qed.

Lemma slot_swap_is_involution_witness :
  let r := mkRow "row-1" [str "reduce"; str "compress"]
             (<["slot-1-1" := str "map"]> (<["slot-1-2" := str "filter"]>
                (slots (newRow 1)))) [] in
  ∃ rs1, handleDrop [r] 0 "slot-1-2" (handleDragStart "row-1" "slot-1-1" "map")
         = Applied rs1
         ∧ handleDrop rs1 0 "slot-1-1" (handleDragStart "row-1" "slot-1-2" "map")
           = Applied [r].
Proof.
  intros r.
  destruct (slot_swap_is_involution [r] 0 r "slot-1-1" "slot-1-2" "map" (str "filter"))
    as (rs1 & r1 & H1 & _ & _ & _ & H2); try reflexivity; try discriminate.
  exists rs1. split; [exact H1 | exact H2].
Defined.

(** ** Through the trash and back *)

Lemma without_app_same fn l : without fn (l ++ [fn]) = without fn l.
Proof.
  unfold without. rewrite filter_app, filter_cons, decide_False by (intros Hx; by apply Hx).
  by rewrite filter_nil, app_nil_r.
Qed.

(** X10: a token dragged from the palette to the trash and then back from the
    trash to the palette ends as the last element of the palette; the slots
    are as before, and every other copy of the token that was in the trash
    is gone with it. *)
Theorem trash_and_back rs rowIdx r fn :
  rs !! rowIdx = Some r → colon_free (rowId r) = true → colon_free fn = true →
  ∃ rs1,
    handleDrop rs rowIdx "trash" (handleDragStart (rowId r) "palette" fn) = Applied rs1
    ∧ handleDrop rs1 rowIdx "palette" (handleDragStart (rowId r) "trash" fn)
      = Applied (<[rowIdx :=
                    mkRow (rowId r) (without (str fn) (palette r) ++ [str fn])
                      (slots r) (without (str fn) (trash r))]> rs).
Proof.
  intros Hr Hid Hfn.
  pose proof (split_colon_colon_free fn Hfn) as Hsplit.
  set (r1 := updateRow "palette" (str fn) "trash" r).
  assert (rowId r1 = rowId r) as Hid1 by apply updateRow_rowId.
  assert (rowIdx < length rs) as Hlt by (by eapply lookup_lt_Some).
  exists (<[rowIdx := r1]> rs). split.
  - rewrite handleDrop_dragged, Hsplit by done. simpl.
    by rewrite (mapRow_insert _ _ _ r).
  - rewrite <-Hid1.
    rewrite handleDrop_dragged, Hsplit;
      [|by apply list_lookup_insert_eq|congruence|done|done].
    simpl. rewrite (mapRow_insert _ _ _ r1) by (by apply list_lookup_insert_eq).
    rewrite list_insert_insert_eq. do 2 f_equal.
    subst r1. unfold updateRow, removeFromSource, placeIntoDest, set_palette, set_trash.
    simpl. by rewrite without_app_same.
Qed.

Lemma trash_and_back_witness :
  ∃ rs1,
    handleDrop initialRows 0 "trash" (handleDragStart "row-1" "palette" "filter")
    = Applied rs1
    ∧ handleDrop rs1 0 "palette" (handleDragStart "row-1" "trash" "filter")
      = Applied [ mkRow "row-1" [str "map"; str "reduce"; str "compress"; str "filter"]
                    (slots (newRow 1)) [] ].
Proof.
  destruct (trash_and_back initialRows 0
              (mkRow "row-1" ALL_FUNCTIONS (slots (newRow 1)) []) "filter")
    as (rs1 & H1 & H2); try (vm_compute; reflexivity).
  exists rs1. split; [exact H1|].
  etrans; [exact H2|]. vm_compute. reflexivity.
Defined.

(** ** Keys of the rendered lists *)

(** X11: in every reachable state the keys the renderer gives to list
    elements are unique: no two rows on display have the same id, and no
    palette and no trash lists a token twice. *)
Theorem reachable_keys_unique st rs :
  reachable st → rows st = Some rs →
  NoDup (rowId <$> rs)
  ∧ Forall (λ r, NoDup (palette r) ∧ NoDup (trash r)) rs.
Proof.
  intros Hst Hrs. split.
  - assert (numbered rs) as Hnum.
    { eapply Forall_lookup_1; [by apply reachable_numbered|done]. }
    apply NoDup_alt. intros i j id Hi Hj.
    rewrite list_lookup_fmap in Hi, Hj.
    destruct (rs !! i) as [ri|] eqn:Hri; [|done].
    destruct (rs !! j) as [rj|] eqn:Hrj; [|done].
    simplify_eq/=. by eapply (numbered_inj rs i j ri rj).
  - pose proof (well_formed_rows st rs (reachable_well_formed st Hst) Hrs) as Hcons.
    eapply Forall_impl; [done|]. intros r Hr. unfold conserved in Hr.
    assert (NoDup (tokens r)) as Hnd by (rewrite Hr; apply ALL_FUNCTIONS_NoDup).
    unfold tokens in Hnd. apply NoDup_app in Hnd as (Hp & _ & Hnd).
    by apply NoDup_app in Hnd as (_ & _ & Ht).
Qed.

Lemma reachable_keys_unique_witness :
  ∃ st rs, step (mkState [initialRows] 0) AddRow = Returned st
           ∧ rows st = Some rs ∧ NoDup (rowId <$> rs).
Proof.
  assert (∃ st, step (mkState [initialRows] 0) AddRow = Returned st)
    as [st Hstep] by (eexists; vm_compute; reflexivity).
  assert (∃ rs, rows st = Some rs) as [rs Hrs].
  { injection Hstep as <-. eexists. vm_compute. reflexivity. }
  exists st, rs. split_and!; [exact Hstep | exact Hrs |].
  apply (reachable_keys_unique st rs); [|exact Hrs].
  apply (reachable_step (mkState [initialRows] 0) AddRow);
    [apply reachable_initial | reflexivity | exact Hstep].
Defined.

(** ** The log and the storage *)

Section ApplicationProperties.
Variable JSON_stringify : list Snapshot → string.
Variable JSON_parse : string → outcome parsed.

Local Abbreviation mount := (mount JSON_stringify JSON_parse).
Local Abbreviation dispatch := (dispatch JSON_stringify).
Local Abbreviation in_sync := (in_sync JSON_stringify).
Local Abbreviation saveHistory := (saveHistory JSON_stringify).

Lemma mount_inv ls app :
  mount ls = Returned app →
  ∃ h, h ≠ [] ∧ app = (mkState h (length h - 1), saveHistory h ls).
Proof.
  unfold mount, initialHistory. destruct (loadHistory JSON_parse ls) as [[|h]|]; try done.
  simpl. intros [= <-]. destruct h; eexists; (split; [|done]); done.
Qed.

Lemma dispatch_inv e st ls app' :
  dispatch e (st, ls) = Returned app' →
  step st e = Returned app'.1
  ∧ (app'.2 = ls ∧ history app'.1 = history st
     ∨ app'.2 = saveHistory (history app'.1) ls
     ∨ app'.2 = saveHistory (history app'.1) (removeItem STORAGE_KEY ls)).
Proof.
  destruct e as [i dest raw| | | |]; simpl.
  - unfold drop. destruct (rows st) as [rs|].
    + destruct (handleDrop rs i dest raw); intros [= <-]; simpl; eauto.
    + case_eqb; intros [= <-]; simpl; eauto.
  - destruct (addRow st) as [st'|]; intros [= <-]; simpl; eauto.
  - intros [= <-]. simpl. split; [done|]. left. by rewrite undo_history.
  - intros [= <-]. simpl. split; [done|]. left. by rewrite redo_history.
  - intros [= <-]. simpl. eauto.
Qed.

(** X12: when mounting returns, the log is not empty and the cursor is on
    its last snapshot, whatever the storage held: an empty stored list, like
    a missing or unreadable one, gives the initial snapshot. *)
Theorem mount_cursor_valid ls st ls' :
  mount ls = Returned (st, ls') →
  history st ≠ [] ∧ index st = length (history st) - 1
  ∧ index st < length (history st) ∧ rows st = last (history st).
Proof.
  intros (h & Hh & [= -> ->])%mount_inv. simpl. split_and!; try done.
  - destruct h; [done|]. simpl. lia.
  - unfold rows. simpl. by rewrite last_lookup, Nat.sub_1_r.
Qed.

(** X14: the component reads and writes one key only: mounting and every
    event leave the items under all other keys of the storage as they
    were. *)
Theorem other_keys_untouched key :
  key ≠ STORAGE_KEY →
  (∀ ls app, mount ls = Returned app → getItem key app.2 = getItem key ls)
  ∧ (∀ e st ls app', dispatch e (st, ls) = Returned app' →
       getItem key app'.2 = getItem key ls).
Proof.
  intros Hkey. split.
  - intros ls app (h & _ & ->)%mount_inv. simpl. by apply lookup_insert_ne.
  - intros e st ls app' (_ & Hls)%dispatch_inv.
    destruct Hls as [[-> _]|[->| ->]]; [done|..]; unfold getItem, saveHistory, setItem.
    + by rewrite lookup_insert_ne.
    + rewrite lookup_insert_ne by done. by apply lookup_delete_ne.
Qed.

(** X15: when [JSON.parse] returns the log that [JSON.stringify] was given,
    and the text is not empty, mounting again on a storage that follows a
    non-empty log restores that log with the cursor on its last snapshot
    and leaves the storage as it is. *)
Theorem reload_restores_log app :
  in_sync app → history app.1 ≠ [] →
  JSON_stringify (history app.1) ≠ "" →
  JSON_parse (JSON_stringify (history app.1)) = Returned (json_history (history app.1)) →
  mount app.2
  = Returned (mkState (history app.1) (length (history app.1) - 1), app.2).
Proof.
  destruct app as [[h c] ls]. unfold in_sync. simpl. intros Hsync Hh Hne Hparse.
  unfold mount, initialHistory, loadHistory. rewrite Hsync.
  rewrite (proj2 (String.eqb_neq _ _)) by done. rewrite Hparse. simpl.
  destruct h as [|s h]; [done|]. unfold persistEffect. simpl.
  rewrite Nat.sub_0_r. do 2 f_equal.
  unfold saveHistory, setItem. by apply insert_id.
Qed.
End ApplicationProperties.

Lemma other_keys_untouched_witness :
  let ls : Storage := {[ "theme" := "dark" ]} in
  getItem "theme" (clickClearAll (λ _, "[]") ls).2 = Some "dark".
Proof.
  intros ls.
  destruct (other_keys_untouched (λ _, "[]") (λ _, Threw) "theme") as [_ Hd];
    [discriminate|].
  apply (Hd ClearAll (mkState [initialRows] 0) ls). reflexivity.
Defined.

Lemma mount_cursor_valid_witness :
  ∃ st ls', mount (λ _, "[]") (λ _, Returned (json_history []))
              {[ STORAGE_KEY := "[]" ]} = Returned (st, ls')
            ∧ history st ≠ [] ∧ index st = length (history st) - 1.
Proof.
  assert (∃ st ls', mount (λ _, "[]") (λ _, Returned (json_history []))
                      {[ STORAGE_KEY := "[]" ]} = Returned (st, ls'))
    as (st & ls' & Hm) by (eexists _, _; vm_compute; reflexivity).
  exists st, ls'. split; [exact Hm|].
  destruct (mount_cursor_valid _ _ _ _ _ Hm) as (Hne & Hi & _).
  split; [exact Hne | exact Hi].
Defined.

Lemma reload_restores_log_witness :
  let log := [initialRows; [newRow 1; newRow 2]] in
  let ls : Storage := {[ STORAGE_KEY := "[log]" ]} in
  mount (λ _, "[log]") (λ _, Returned (json_history log)) ls
  = Returned (mkState log 1, ls).
Proof.
  intros log ls.
  apply (reload_restores_log (λ _, "[log]") (λ _, Returned (json_history log))
           (mkState log 0, ls)).
  - vm_compute. reflexivity.
  - discriminate.
  - discriminate.
  - reflexivity.
Defined.

(** ** Drops on another row *)

(** X16: in a reachable state a token dragged from one row and dropped on
    any container of another row on display is ignored: the ids of the rows
    differ, so the guard of [handleDrop] returns. *)
Theorem cross_row_drop_ignored st rs i j rj container fn dest :
  reachable st → rows st = Some rs →
  rs !! j = Some rj → is_Some (rs !! i) → i ≠ j →
  handleDrop rs i dest (handleDragStart (rowId rj) container fn) = Ignored
  ∧ step st (Drop i dest (handleDragStart (rowId rj) container fn)) = Returned st.
Proof.
  intros Hst Hrs Hj [ri Hi] Hne.
  assert (numbered rs) as Hnum.
  { eapply Forall_lookup_1; [by apply reachable_numbered|done]. }
  assert (handleDrop rs i dest (handleDragStart (rowId rj) container fn) = Ignored)
    as Hdrop.
  { unfold handleDrop. rewrite handleDragStart_nonempty, Hi.
    unfold handleDragStart.
    rewrite split_colon_piece by (by eapply numbered_colon_free).
    cbn [field lookup list_lookup].
    rewrite bool_decide_eq_true_2; [done|].
    intros [= Heq]. by apply Hne, (numbered_inj rs i j ri rj). }
  split; [done|]. simpl. unfold drop. by rewrite Hrs, Hdrop.
Qed.

Lemma cross_row_drop_ignored_witness :
  handleDrop [newRow 1; newRow 2] 0 "slot-1-1" (handleDragStart "row-2" "palette" "map")
  = Ignored.
Proof.
  assert (∃ st, step (mkState [initialRows] 0) AddRow = Returned st)
    as [st Hstep] by (eexists; vm_compute; reflexivity).
  assert (reachable st) as Hst.
  { apply (reachable_step (mkState [initialRows] 0) AddRow);
      [apply reachable_initial | reflexivity | exact Hstep]. }
  injection Hstep as <-.
  refine (proj1 (cross_row_drop_ignored _ [newRow 1; newRow 2] 0 1 (newRow 2)
                   "palette" "map" "slot-1-1" Hst _ _ _ _)).
  - vm_compute. reflexivity.
  - reflexivity.
  - by eexists.
  - lia.
Defined.

(** ** The storage follows the log *)

Section QuotaProperties.
Variable JSON_stringify : list Snapshot → string.
Variable JSON_parse : string → outcome parsed.
Variable quota_exceeded : string → string → Storage → bool.

Local Abbreviation mount_or_throw := (mount_or_throw JSON_stringify JSON_parse quota_exceeded).
Local Abbreviation dispatch_or_throw := (dispatch_or_throw JSON_stringify quota_exceeded).
Local Abbreviation effect_or_throw := (effect_or_throw JSON_stringify quota_exceeded).
Local Abbreviation in_sync := (in_sync JSON_stringify).

Lemma effect_or_throw_inv st ls app :
  effect_or_throw st ls = Returned app →
  quota_exceeded STORAGE_KEY (JSON_stringify (history st)) ls = false
  ∧ app = persistEffect JSON_stringify st ls.
Proof.
  unfold effect_or_throw, saveHistory_or_throw, setItem_or_throw.
  destruct (quota_exceeded _ _ _); [done|]. by intros [= <-].
Qed.

Lemma effect_or_throw_Threw st ls :
  effect_or_throw st ls = Threw →
  quota_exceeded STORAGE_KEY (JSON_stringify (history st)) ls = true.
Proof.
  unfold effect_or_throw, saveHistory_or_throw, setItem_or_throw.
  by destruct (quota_exceeded _ _ _).
Qed.

Lemma effect_or_throw_in_sync st ls app :
  effect_or_throw st ls = Returned app → in_sync app ∧ app.1 = st.
Proof.
  intros [_ ->]%effect_or_throw_inv. split; [|done]. apply lookup_insert_eq.
Qed.

(** When the storage never refuses a write, the events are those of
    [dispatch]. *)
Lemma dispatch_or_throw_unbounded e app :
  (∀ key item ls, quota_exceeded key item ls = false) →
  dispatch_or_throw e app = dispatch JSON_stringify e app.
Proof.
  intros Hfree. destruct app as [st ls].
  assert (∀ st ls, effect_or_throw st ls
                   = Returned (persistEffect JSON_stringify st ls)) as Heff.
  { intros st0 ls0. unfold effect_or_throw, saveHistory_or_throw, setItem_or_throw.
    by rewrite Hfree. }
  destruct e as [i dest raw| | | |]; simpl.
  - destruct (rows st) as [rs|]; [|done].
    destruct (handleDrop rs i dest raw); by rewrite ?Heff.
  - destruct (addRow st); simpl; by rewrite ?Heff.
  - done.
  - done.
  - by rewrite Heff.
Qed.

(** X13: with a [setItem] that may throw on a full storage: when mounting
    completes, and when an event completes from a state whose log the
    storage holds, the storage holds the serialized log of the new state,
    and the state is the one the handler gives. When the handler of an
    event returns and the event still fails, the storage has refused the
    write of the new log. *)
Theorem storage_follows_log :
  (∀ ls app, mount_or_throw ls = Returned app → in_sync app)
  ∧ (∀ e app app', in_sync app → dispatch_or_throw e app = Returned app' →
       in_sync app' ∧ step app.1 e = Returned app'.1)
  ∧ (∀ e st ls st', step st e = Returned st' →
       dispatch_or_throw e (st, ls) = Threw →
       quota_exceeded STORAGE_KEY (JSON_stringify (history st'))
         (if e is ClearAll then removeItem STORAGE_KEY ls else ls) = true).
Proof.
  split_and!.
  - intros ls app. unfold mount_or_throw.
    destruct (initialHistory JSON_parse ls) as [h|]; [|done]. simpl.
    by intros [? _]%effect_or_throw_in_sync.
  - intros e [st ls] app' Hsync. unfold in_sync in Hsync. simpl in Hsync.
    destruct e as [i dest raw| | | |]; simpl.
    + unfold drop. destruct (rows st) as [rs|].
      * destruct (handleDrop rs i dest raw); [by intros [= <-]| |done].
        by intros [? ->]%effect_or_throw_in_sync.
      * case_eqb; [by intros [= <-]|done].
    + destruct (addRow st) as [st'|]; [|done]. simpl.
      by intros [? ->]%effect_or_throw_in_sync.
    + intros [= <-]. split; [|done]. unfold in_sync. simpl.
      by rewrite undo_history.
    + intros [= <-]. split; [|done]. unfold in_sync. simpl.
      by rewrite redo_history.
    + by intros [? ->]%effect_or_throw_in_sync.
  - intros e st ls st' Hstep.
    destruct e as [i dest raw| | | |]; simpl in Hstep |- *.
    + unfold drop in Hstep. destruct (rows st) as [rs|].
      * destruct (handleDrop rs i dest raw); simplify_eq; [done|].
        apply effect_or_throw_Threw.
      * by case_eqb.
    + rewrite Hstep. simpl. apply effect_or_throw_Threw.
    + done.
    + done.
    + simplify_eq. apply effect_or_throw_Threw.
Qed.
End QuotaProperties.

Lemma storage_follows_log_witness :
  let stringify := λ h : list Snapshot, "[" +:+ pretty (length h) +:+ "]" in
  let full := λ (_ item : string) (_ : Storage), String.eqb item "[3]" in
  let app : State * Storage := (mkState [initialRows] 0, {[ STORAGE_KEY := "[1]" ]}) in
  ∃ st1 ls1 st2,
    dispatch_or_throw stringify full AddRow app = Returned (st1, ls1)
    ∧ getItem STORAGE_KEY ls1 = Some "[2]"
    ∧ step st1 AddRow = Returned st2
    ∧ dispatch_or_throw stringify full AddRow (st1, ls1) = Threw
    ∧ full STORAGE_KEY (stringify (history st2)) ls1 = true.
Proof.
  intros stringify full app.
  assert (∃ st1 ls1, dispatch_or_throw stringify full AddRow app = Returned (st1, ls1))
    as (st1 & ls1 & Hd) by (eexists _, _; vm_compute; reflexivity).
  assert (∃ st2, step st1 AddRow = Returned st2) as [st2 Hstep2].
  { injection Hd as <- <-. eexists. vm_compute. reflexivity. }
  assert (dispatch_or_throw stringify full AddRow (st1, ls1) = Threw) as Hthrow.
  { injection Hd as <- <-. vm_compute. reflexivity. }
  exists st1, ls1, st2.
  destruct (storage_follows_log stringify (λ _, Threw) full) as (_ & Hstep & Hfail).
  destruct (Hstep AddRow app (st1, ls1)) as [Hsync _].
  { vm_compute. reflexivity. }
  { exact Hd. }
  split_and!.
  - exact Hd.
  - etrans; [exact Hsync|]. injection Hd as <- <-. vm_compute. reflexivity.
  - exact Hstep2.
  - exact Hthrow.
  - exact (Hfail AddRow st1 ls1 st2 Hstep2 Hthrow).
Defined.
